(** * eva-core: the plan runner and its orchestrator

    A shallow embedding of [domain/plan.ts] ([makePlan], [runPlan]) and of
    [runtime/orchestrator.ts] ([Orchestrator.run]), together with the parts
    of [util/result], [domain/ids] and [spi/telemetry] they rely on.

    JavaScript specifics are written out: values of type [unknown] are a
    small inductive type of JavaScript values, a function that may throw
    returns a completion record, the mutable [StepContext] is threaded
    through the actions, and the calls made to step functions and to the
    telemetry sink are recorded in an event log (what a call spy sees). *)

From Stdlib Require Import String Ascii List ZArith Lia Bool.
From Stdlib Require Import Decimal DecimalString DecimalNat.
From Stdlib Require Import Sorted.
Import ListNotations.
Open Scope string_scope.

(** ** JavaScript values *)

Module Js.

#[local] Set Warnings "-register-all".

(** [Number.MAX_SAFE_INTEGER], 2^53 - 1. *)
Definition max_safe_integer : Z := 9007199254740991.

(** [Number.isSafeInteger] on an integer. *)
Definition is_safe_integer (n : Z) : bool := (Z.abs n <=? max_safe_integer)%Z.

(** Values of static type [unknown]/[any].  [VNum n] is the Number [n], a
    safe integer (the only Numbers of the model: on those [String] prints
    the plain decimal numeral); [VError m] is [new Error(m)] and
    [VTypeError m] is [new TypeError(m)]; [VObject] is an object whose
    prototype is [Object.prototype] and whose own properties are the given
    data properties (first binding of a key wins). *)
Inductive Value : Type :=
| VUndefined
| VNull
| VBool (b : bool)
| VNum (n : Z) (safe : is_safe_integer n = true)
| VStr (s : string)
| VError (message : string)
| VTypeError (message : string)
| VObject (props : list (string * Value)).

(** A completion record: the evaluation returned normally or threw. *)
Inductive Completion (A : Type) : Type :=
| Normal (a : A)
| Throw (e : Value).
Arguments Normal {A} a.
Arguments Throw {A} e.

(** The Number [n] when [n] is a safe integer.  Integers that are not safe
    are not values of the model; they are pinned to the largest safe
    integer so that the function is total. *)
Definition js_number (n : Z) : Value :=
  (if is_safe_integer n as b return (is_safe_integer n = b -> Value)
   then fun safe => VNum n safe
   else fun _ => VNum max_safe_integer eq_refl) eq_refl.

(** [l.length] of an array.  An array has at most 2^32 - 1 elements, so its
    length is a safe integer and [js_number] is the identity on it. *)
Definition js_length {A : Type} (l : list A) : Value :=
  js_number (Z.of_nat (length l)).

Fixpoint lookup (k : string) (props : list (string * Value)) : Value :=
  match props with
  | [] => VUndefined
  | (k', v) :: rest => if String.eqb k k' then v else lookup k rest
  end.

(** The object has an own property named [k]. *)
Fixpoint has_own (k : string) (props : list (string * Value)) : bool :=
  match props with
  | [] => false
  | (k', _) :: rest => String.eqb k k' || has_own k rest
  end.

(** [v?.[k]]: property read with optional chaining, for a key that
    [Object.prototype] does not define (the code reads [message]). *)
Definition js_opt_get (v : Value) (k : string) : Value :=
  match v with
  | VError m | VTypeError m => if String.eqb k "message" then VStr m else VUndefined
  | VObject props => lookup k props
  | _ => VUndefined
  end.

(** ToBoolean. *)
Definition js_truthy (v : Value) : bool :=
  match v with
  | VUndefined | VNull => false
  | VBool b => b
  | VNum n _ => negb (Z.eqb n 0)
  | VStr s => negb (String.eqb s "")
  | VError _ | VTypeError _ | VObject _ => true
  end.

(** [a || b], both operands already evaluated. *)
Definition js_or (a b : Value) : Value := if js_truthy a then a else b.

(** The TypeError of ToPrimitive when neither [toString] nor [valueOf]
    yields a primitive.  The specification fixes the kind of the error, the
    engine its text; the text is V8's. *)
Definition cannot_convert : Value :=
  VTypeError "Cannot convert object to primitive value".

(** [String(v)].  For an object, ToPrimitive with hint string calls
    [toString] and then [valueOf]: without an own [toString] the inherited
    one answers ["[object Object]"]; an own [toString] is a data property
    of the model, hence not callable, and [valueOf] (own, not callable, or
    inherited, returning the object itself) yields no primitive either, so
    the conversion throws a TypeError. *)
Definition js_String (v : Value) : Completion string :=
  match v with
  | VUndefined => Normal "undefined"
  | VNull => Normal "null"
  | VBool true => Normal "true"
  | VBool false => Normal "false"
  | VNum n _ => Normal (NilZero.string_of_int (Z.to_int n))
  | VStr s => Normal s
  | VError m => Normal (if String.eqb m "" then "Error" else "Error: " ++ m)
  | VTypeError m => Normal (if String.eqb m "" then "TypeError" else "TypeError: " ++ m)
  | VObject props =>
      if has_own "toString" props then Throw cannot_convert
      else Normal "[object Object]"
  end.

(** The numeral spliced into a template literal for an array index. *)
Definition nat_to_string (n : nat) : string :=
  NilEmpty.string_of_uint (Nat.to_uint n).

End Js.
Export Js.

(** ** util/result *)

Module Result.

Inductive Result (T E : Type) : Type :=
| Ok (value : T)
| Err (error : E).
Arguments Ok {T E} value.
Arguments Err {T E} error.

(** Modelled from the spec: [util/result.js] is not among the sources, only
    its declarations are.  Section 6 gives the tagged union
    [{ ok: true, value } | { ok: false, error }]; [ok] and [err] build its
    two variants and [unwrap] returns the value or throws the error. *)
Definition ok {T E : Type} (value : T) : Result T E := Ok value.

Definition err {T E : Type} (error : E) : Result T E := Err error.

Definition unwrap {T : Type} (r : Result T Value) : Completion T :=
  match r with
  | Ok v => Normal v
  | Err e => Throw e
  end.

(** The [ok] discriminant of a Result. *)
Definition is_ok {T E : Type} (r : Result T E) : bool :=
  match r with
  | Ok _ => true
  | Err _ => false
  end.

End Result.
Export Result.

(** ** domain/ids *)

Module Ids.

Definition PlanId : Type := string.
Definition StepId : Type := string.
Definition EventId : Type := string.

Definition asPlanId (s : string) : PlanId := s.
Definition asStepId (s : string) : StepId := s.
Definition asEventId (s : string) : EventId := s.

End Ids.
Export Ids.

(** ** domain/plan: the data model *)

(** [vars: Record<string, unknown>], own properties in insertion order. *)
Record StepContext : Type := mkContext {
  vars : list (string * Value)
}.

(** What awaiting [action(ctx)] yields: the promise resolved with a Result,
    or the call threw / the promise rejected. *)
Inductive Settled : Type :=
| Resolved (r : Result (option Value) Value)
| Rejected (e : Value).

(** An action receives the shared context, may mutate [ctx.vars], and
    settles.  The context it leaves behind is the first component. *)
Definition Action : Type := StepContext -> StepContext * Settled.

(** A gating predicate reads the context and returns a boolean or throws. *)
Definition When : Type := StepContext -> Completion bool.

Record Step : Type := mkStep {
  step_id : StepId;
  step_name : string;
  step_action : Action;
  step_when : option When
}.

(** The [id] member of an element handed to [makePlan]: missing
    ([undefined]), [null], or a string. *)
Inductive IdField : Type :=
| IdUndefined
| IdNull
| IdString (s : StepId).

Record StepSpec : Type := mkSpec {
  spec_id : IdField;
  spec_name : string;
  spec_action : Action;
  spec_when : option When
}.

Record Plan : Type := mkPlan {
  plan_id : PlanId;
  plan_name : string;
  plan_steps : list Step
}.

(** [a ?? b] on an id: only [null] and [undefined] fall through. *)
Definition nullish_or (a : IdField) (b : StepId) : StepId :=
  match a with
  | IdString s => s
  | IdUndefined | IdNull => b
  end.

(** The template literal [`${name}-s${i + 1}`]. *)
Definition auto_id (name : string) (i : nat) : StepId :=
  asStepId (name ++ "-s" ++ nat_to_string (i + 1)).

(** [steps.map((s, i) => ...)] of [makePlan], [i] being the index of the
    head of [steps]. *)
Fixpoint normalize (name : string) (i : nat) (steps : list StepSpec) : list Step :=
  match steps with
  | [] => []
  | s :: rest =>
      {| step_id := nullish_or (spec_id s) (auto_id name i);
         step_name := spec_name s;
         step_action := spec_action s;
         step_when := spec_when s |} :: normalize name (S i) rest
  end.

Definition makePlan (name : string) (steps : list StepSpec) : Plan :=
  {| plan_id := asPlanId name; plan_name := name; plan_steps := normalize name 0 steps |}.

(** ** domain/plan: the runner *)

(** One element of the run summary, [{ id, ok }]. *)
Record SummaryEntry : Type := mkEntry {
  entry_id : StepId;
  entry_ok : bool
}.

(** The value of a successful run, [{ steps: summary }]. *)
Record RunValue : Type := mkRunValue {
  steps : list SummaryEntry
}.

Definition RunResult : Type := Result RunValue Value.

(** Attributes of a telemetry call, [Record<string, unknown>]. *)
Definition Attrs : Type := list (string * Value).

(** The event log.  [EvWhen i] and [EvAction i] record that the predicate,
    respectively the action, of the step at position [i] (0-based) of
    [plan.steps] was called; [EvInfo] and [EvError] record a call of the
    telemetry method of that name. *)
Inductive Event : Type :=
| EvWhen (i : nat)
| EvAction (i : nat)
| EvInfo (msg : string) (attrs : Attrs)
| EvError (msg : string) (attrs : Attrs).

(** The locals of [runPlan] ([ctx], [summary]) and the event log. *)
Record LoopState : Type := mkLoop {
  ls_ctx : StepContext;
  ls_summary : list SummaryEntry;
  ls_trace : list Event
}.

Definition log (ev : Event) (st : LoopState) : LoopState :=
  {| ls_ctx := ls_ctx st; ls_summary := ls_summary st; ls_trace := ls_trace st ++ [ev] |}.

(** [summary.push(entry)]. *)
Definition push (entry : SummaryEntry) (st : LoopState) : LoopState :=
  {| ls_ctx := ls_ctx st; ls_summary := ls_summary st ++ [entry]; ls_trace := ls_trace st |}.

(** The action left the shared context as [ctx]. *)
Definition with_ctx (ctx : StepContext) (st : LoopState) : LoopState :=
  {| ls_ctx := ctx; ls_summary := ls_summary st; ls_trace := ls_trace st |}.

(** How one iteration of the [for] loop ends: [continue] / fall through,
    [return r], or an exception leaving [runPlan]. *)
Inductive Control : Type :=
| Continue
| Return (r : RunResult)
| Raise (e : Value).

(** The error of a failed run:
    [{ message: `Step failed: ${s.name}`, cause: r.error }]. *)
Definition step_failed (s : Step) (cause : Value) : Value :=
  VObject [("message", VStr ("Step failed: " ++ step_name s)); ("cause", cause)].

(** Lines 47-49: [await s.action(ctx)], push the entry, return on failure. *)
Definition run_action (i : nat) (s : Step) (st : LoopState) : LoopState * Control :=
  let (ctx', settled) := step_action s (ls_ctx st) in
  let st1 := log (EvAction i) (with_ctx ctx' st) in
  match settled with
  | Rejected e => (st1, Raise e)
  | Resolved r =>
      let st2 := push {| entry_id := step_id s; entry_ok := is_ok r |} st1 in
      match r with
      | Ok _ => (st2, Continue)
      | Err e => (st2, Return (err (step_failed s e)))
      end
  end.

(** The loop body for the step at position [i]: lines 43-49. *)
Definition loop_body (i : nat) (s : Step) (st : LoopState) : LoopState * Control :=
  match step_when s with
  | None => run_action i s st
  | Some w =>
      let st1 := log (EvWhen i) st in
      match w (ls_ctx st) with
      | Throw e => (st1, Raise e)
      | Normal false => (push {| entry_id := step_id s; entry_ok := true |} st1, Continue)
      | Normal true => run_action i s st1
      end
  end.

(** [for (const s of plan.steps) ...], [i] being the position of the head. *)
Fixpoint for_of (i : nat) (todo : list Step) (st : LoopState) : LoopState * Control :=
  match todo with
  | [] => (st, Continue)
  | s :: rest =>
      match loop_body i s st with
      | (st', Continue) => for_of (S i) rest st'
      | stop => stop
      end
  end.

Definition init_ctx : StepContext := {| vars := [] |}.

Definition init_state : LoopState :=
  {| ls_ctx := init_ctx; ls_summary := []; ls_trace := [] |}.

(** [runPlan]: the state in which the function is left (its locals and the
    log) and its completion: the Result the promise resolves with, or the
    value it rejects with. *)
Definition runPlan (plan : Plan) : LoopState * Completion RunResult :=
  match for_of 0 (plan_steps plan) init_state with
  | (st, Continue) => (st, Normal (ok {| steps := ls_summary st |}))
  | (st, Return r) => (st, Normal r)
  | (st, Raise e) => (st, Throw e)
  end.

(** ** spi/telemetry *)

(** The [Telemetry] capability set.  Each method returns [void]; [None] is a
    normal return and [Some e] is the method throwing [e].  [startSpan] is
    not used by the orchestrator and is left out. *)
Record Telemetry : Type := mkTelemetry {
  tel_info : string -> Attrs -> option Value;
  tel_warn : string -> Attrs -> option Value;
  tel_error : string -> Attrs -> option Value
}.

Definition NoopTelemetry : Telemetry :=
  {| tel_info := fun _ _ => None;
     tel_warn := fun _ _ => None;
     tel_error := fun _ _ => None |}.

(** ** runtime/orchestrator *)

(** Code that appends to the event log and returns or throws. *)
Definition Eff (A : Type) : Type := list Event -> list Event * Completion A.

Definition ret {A : Type} (a : A) : Eff A := fun tr => (tr, Normal a).

Definition bind {A B : Type} (m : Eff A) (k : A -> Eff B) : Eff B :=
  fun tr =>
    match m tr with
    | (tr', Normal a) => k a tr'
    | (tr', Throw e) => (tr', Throw e)
    end.

(** [try { body } catch (e) { handler }]. *)
Definition try_catch {A : Type} (body : Eff A) (handler : Value -> Eff A) : Eff A :=
  fun tr =>
    match body tr with
    | (tr', Normal a) => (tr', Normal a)
    | (tr', Throw e) => handler e tr'
    end.

Notation "x <- m ;; k" := (bind m (fun x => k))
  (at level 61, m at next level, right associativity).
Notation "m ;; k" := (bind m (fun _ => k))
  (at level 61, right associativity).

(** [this.telemetry?.info(msg, attrs)]: elided when no telemetry was given. *)
Definition telemetry_info (t : option Telemetry) (msg : string) (attrs : Attrs) : Eff unit :=
  fun tr =>
    match t with
    | None => (tr, Normal tt)
    | Some tel =>
        ((tr ++ [EvInfo msg attrs])%list,
         match tel_info tel msg attrs with None => Normal tt | Some e => Throw e end)
    end.

(** [this.telemetry?.error(msg, attrs)]. *)
Definition telemetry_error (t : option Telemetry) (msg : string) (attrs : Attrs) : Eff unit :=
  fun tr =>
    match t with
    | None => (tr, Normal tt)
    | Some tel =>
        ((tr ++ [EvError msg attrs])%list,
         match tel_error tel msg attrs with None => Normal tt | Some e => Throw e end)
    end.

(** [await runPlan(plan)], its events appended to the log. *)
Definition await_runPlan (plan : Plan) : Eff RunResult :=
  fun tr => let (st, c) := runPlan plan in ((tr ++ ls_trace st)%list, c).

(** [e?.message || String(e)]: [String(e)] is evaluated, and may throw,
    only when [e?.message] is falsy. *)
Definition exception_message (e : Value) : Completion Value :=
  let m := js_opt_get e "message" in
  if js_truthy m then Normal m
  else match js_String e with
       | Normal s => Normal (VStr s)
       | Throw te => Throw te
       end.

(** The object literal [{ error: e?.message || String(e) }]. *)
Definition exception_attrs (e : Value) : Completion Attrs :=
  match exception_message e with
  | Normal m => Normal [("error", m)]
  | Throw te => Throw te
  end.

Definition throw {A : Type} (e : Value) : Eff A := fun tr => (tr, Throw e).

(** [this.telemetry?.error(msg, <args>)] where evaluating the argument may
    throw: without telemetry the call is elided together with the
    evaluation of its argument; with telemetry the argument is evaluated
    first and, if that throws, the method is not called. *)
Definition telemetry_error_args
    (t : option Telemetry) (msg : string) (args : Completion Attrs) : Eff unit :=
  match t with
  | None => ret tt
  | Some _ =>
      match args with
      | Normal attrs => telemetry_error t msg attrs
      | Throw e => throw e
      end
  end.

(** [Orchestrator.run] of an orchestrator constructed with [t]. *)
Definition run (t : option Telemetry) (plan : Plan) : Eff RunResult :=
  try_catch
    (telemetry_info t "orchestrator.run.start"
       [("planId", VStr (plan_id plan)); ("name", VStr (plan_name plan))] ;;
     r <- await_runPlan plan ;;
     match r with
     | Err e =>
         telemetry_error t "orchestrator.run.error" [("error", e)] ;;
         ret r
     | Ok v =>
         telemetry_info t "orchestrator.run.ok" [("steps", js_length (steps v))] ;;
         ret (ok v)
     end)
    (fun e =>
       telemetry_error_args t "orchestrator.run.exception" (exception_attrs e) ;;
       ret (err e)).

(** One call of [run]: the log it leaves and its completion. *)
Definition run_once (t : option Telemetry) (plan : Plan) : list Event * Completion RunResult :=
  run t plan [].

(** ** Fixtures: the plans and telemetry sinks of the test suite *)

Module Fixtures.

(** [async () => ({ ok: true, value: {} })]. *)
Definition act_ok : Action := fun ctx => (ctx, Resolved (Ok None)).

(** [async () => ({ ok: false, error: new Error(m) })]. *)
Definition act_fail (m : string) : Action :=
  fun ctx => (ctx, Resolved (Err (VError m))).

(** [async () => { throw e; }]. *)
Definition act_throw (e : Value) : Action := fun ctx => (ctx, Rejected e).

(** [async (ctx) => { ctx.vars = { ...ctx.vars, [k]: v }; return ok({}) }]. *)
Definition act_set (k : string) (v : Value) : Action :=
  fun ctx => ({| vars := (k, v) :: vars ctx |}, Resolved (Ok None)).

Definition spec (name : string) (a : Action) : StepSpec :=
  {| spec_id := IdUndefined; spec_name := name; spec_action := a; spec_when := None |}.

Definition spec_gated (name : string) (w : When) (a : Action) : StepSpec :=
  {| spec_id := IdUndefined; spec_name := name; spec_action := a; spec_when := Some w |}.

Definition spec_with_id (id : IdField) (name : string) (a : Action) : StepSpec :=
  {| spec_id := id; spec_name := name; spec_action := a; spec_when := None |}.

Definition never : When := fun _ => Normal false.

(** "runs steps in order and summarizes". *)
Definition plan_two_ok : Plan :=
  makePlan "p" [spec "a" act_ok; spec "b" act_ok].

(** "stops on first failure". *)
Definition plan_fail_first : Plan :=
  makePlan "p" [spec "a" (act_fail "x"); spec "b" act_ok].

(** A failure in second position, after a step that writes the context. *)
Definition plan_fail_second : Plan :=
  makePlan "p" [spec "a" (act_set "seen" (VBool true)); spec "b" (act_fail "x");
                spec "c" act_ok].

(** "skips step when predicate false". *)
Definition plan_skip : Plan :=
  makePlan "p" [spec_gated "a" never act_ok].

(** A gated-off step between two steps that run. *)
Definition plan_skip_middle : Plan :=
  makePlan "p" [spec "a" (act_set "seen" (VBool true));
                spec_gated "b" never (act_fail "unreachable");
                spec "c" act_ok].

(** "returns err when a step throws". *)
Definition plan_throw (e : Value) : Plan :=
  makePlan "p" [spec "boom" (act_throw e)].

Definition plan_empty : Plan := makePlan "p" [].

(** The steps of [plan_fail_second] and of [plan_skip_middle]. *)
Definition step_a : Step :=
  {| step_id := "p-s1"; step_name := "a";
     step_action := act_set "seen" (VBool true); step_when := None |}.

Definition step_b_fails : Step :=
  {| step_id := "p-s2"; step_name := "b"; step_action := act_fail "x"; step_when := None |}.

Definition step_b_gated : Step :=
  {| step_id := "p-s2"; step_name := "b";
     step_action := act_fail "unreachable"; step_when := Some never |}.

Definition step_c : Step :=
  {| step_id := "p-s3"; step_name := "c"; step_action := act_ok; step_when := None |}.

(** The single step of [plan_throw e]. *)
Definition step_boom (e : Value) : Step :=
  {| step_id := "p-s1"; step_name := "boom"; step_action := act_throw e; step_when := None |}.

(** The loop state after [step_a] ran. *)
Definition state_after_a : LoopState :=
  {| ls_ctx := {| vars := [("seen", VBool true)] |};
     ls_summary := [{| entry_id := "p-s1"; entry_ok := true |}];
     ls_trace := [EvAction 0] |}.

(** The context after [step_a]. *)
Definition ctx_seen : StepContext := {| vars := [("seen", VBool true)] |}.

(** An input mixing a missing id, an empty-string id and a [null] id. *)
Definition specs_mixed : list StepSpec :=
  [spec "a" act_ok; spec_with_id (IdString "") "b" act_ok; spec_with_id IdNull "c" act_ok].

(** An input whose first element carries the id generated for the second. *)
Definition specs_colliding : list StepSpec :=
  [spec_with_id (IdString "p-s2") "a" act_ok; spec "b" act_ok].

(** A value whose conversion to a string throws: the object
    [{ toString: 1 }]. *)
Definition unprintable : Value := VObject [("toString", js_number 1)].

(** A sink whose every method throws [e]. *)
Definition tel_throwing (e : Value) : Telemetry :=
  {| tel_info := fun _ _ => Some e;
     tel_warn := fun _ _ => Some e;
     tel_error := fun _ _ => Some e |}.

(** A sink whose [info] throws [e] on the message [m] only. *)
Definition tel_info_throws_on (m : string) (e : Value) : Telemetry :=
  {| tel_info := fun msg _ => if String.eqb msg m then Some e else None;
     tel_warn := fun _ _ => None;
     tel_error := fun _ _ => None |}.

(** A sink whose [error] throws [e] on the message [m] only. *)
Definition tel_error_throws_on (m : string) (e : Value) : Telemetry :=
  {| tel_info := fun _ _ => None;
     tel_warn := fun _ _ => None;
     tel_error := fun msg _ => if String.eqb msg m then Some e else None |}.

End Fixtures.

(** ** Vocabulary of the statements *)

(** The summary entry of a step that succeeded or was skipped. *)
Definition ok_entry (s : Step) : SummaryEntry :=
  {| entry_id := step_id s; entry_ok := true |}.

(** The summary entry of the step that failed. *)
Definition failed_entry (s : Step) : SummaryEntry :=
  {| entry_id := step_id s; entry_ok := false |}.

(** The step is not gated off in context [c]: it has no [when], or its
    [when] returns true. *)
Definition gate_open (s : Step) (c : StepContext) : bool :=
  match step_when s with
  | None => true
  | Some w => match w c with Normal true => true | _ => false end
  end.

(** The step is gated off in context [c]: its [when] returns false. *)
Definition gated_off (s : Step) (c : StepContext) : Prop :=
  exists w, step_when s = Some w /\ w c = Normal false.

(** [Passes c todo c']: started in context [c], every step of [todo] is
    either gated off or runs and resolves with a success Result, and the
    context is [c'] afterwards.  No step fails and none throws. *)
Inductive Passes : StepContext -> list Step -> StepContext -> Prop :=
| Passes_nil (c : StepContext) : Passes c [] c
| Passes_skip (c c2 : StepContext) (s : Step) (rest : list Step) :
    gated_off s c -> Passes c rest c2 -> Passes c (s :: rest) c2
| Passes_run (c c1 c2 : StepContext) (s : Step) (v : option Value) (rest : list Step) :
    gate_open s c = true ->
    step_action s c = (c1, Resolved (Ok v)) ->
    Passes c1 rest c2 -> Passes c (s :: rest) c2.

(** [AllSucceed c todo]: started in context [c], every step of [todo] runs
    (none is gated off) and resolves with a success Result. *)
Inductive AllSucceed : StepContext -> list Step -> Prop :=
| AllSucceed_nil (c : StepContext) : AllSucceed c []
| AllSucceed_cons (c c1 : StepContext) (s : Step) (v : option Value) (rest : list Step) :
    gate_open s c = true ->
    step_action s c = (c1, Resolved (Ok v)) ->
    AllSucceed c1 rest -> AllSucceed c (s :: rest).

(** In context [c] the step throws [e]: its predicate throws, or it is not
    gated off and its action throws or rejects. *)
Inductive StepThrows (s : Step) (c : StepContext) (e : Value) : Prop :=
| Throws_when (w : When) :
    step_when s = Some w -> w c = Throw e -> StepThrows s c e
| Throws_action (c1 : StepContext) :
    gate_open s c = true -> step_action s c = (c1, Rejected e) -> StepThrows s c e.

(** The loop state in which the action of a step that is not gated off is
    called: the call of its predicate, if it has one, is logged first. *)
Definition after_gate (i : nat) (s : Step) (st : LoopState) : LoopState :=
  match step_when s with
  | None => st
  | Some _ => log (EvWhen i) st
  end.

(** The event is a call of the predicate or action of a step whose position
    lies in [lo, hi). *)
Definition step_event_in (lo hi : nat) (ev : Event) : Prop :=
  match ev with
  | EvWhen j | EvAction j => lo <= j < hi
  | EvInfo _ _ | EvError _ _ => False
  end.

Definition is_step_event (ev : Event) : bool :=
  match ev with
  | EvWhen _ | EvAction _ => true
  | EvInfo _ _ | EvError _ _ => false
  end.

(** The three telemetry events that close a run. *)
Definition is_final_event (ev : Event) : bool :=
  match ev with
  | EvInfo msg _ => String.eqb msg "orchestrator.run.ok"
  | EvError msg _ =>
      String.eqb msg "orchestrator.run.error" || String.eqb msg "orchestrator.run.exception"
  | EvWhen _ | EvAction _ => false
  end.

Definition start_event (plan : Plan) : Event :=
  EvInfo "orchestrator.run.start"
    [("planId", VStr (plan_id plan)); ("name", VStr (plan_name plan))].

(** Every [info] and [error] call of the sink returns normally; vacuous when
    no telemetry was supplied. *)
Definition quiet (t : option Telemetry) : Prop :=
  match t with
  | None => True
  | Some tel =>
      (forall msg attrs, tel_info tel msg attrs = None) /\
      (forall msg attrs, tel_error tel msg attrs = None)
  end.

(** The telemetry call that closes a run whose runner completed with [c];
    none when the runner threw a value whose message cannot be computed. *)
Definition final_event (c : Completion RunResult) : option Event :=
  match c with
  | Normal (Ok v) => Some (EvInfo "orchestrator.run.ok" [("steps", js_length (steps v))])
  | Normal (Err e) => Some (EvError "orchestrator.run.error" [("error", e)])
  | Throw e =>
      match exception_message e with
      | Normal m => Some (EvError "orchestrator.run.exception" [("error", m)])
      | Throw _ => None
      end
  end.

(** The runner's completion as a Result: a Result is kept, a thrown value
    becomes the error of a failure. *)
Definition settle (c : Completion RunResult) : RunResult :=
  match c with
  | Normal r => r
  | Throw e => Err e
  end.

(** The completion of [run] around a runner that completed with [c], the
    sink's calls returning normally: the settled Result, unless there is a
    sink and computing the message of the thrown value throws. *)
Definition outcome (t : option Telemetry) (c : Completion RunResult) : Completion RunResult :=
  match t, c with
  | Some _, Throw e =>
      match exception_message e with
      | Normal _ => Normal (Err e)
      | Throw te => Throw te
      end
  | _, _ => Normal (settle c)
  end.

(** The telemetry calls around the runner, none when no sink was given. *)
Definition opening (t : option Telemetry) (plan : Plan) : list Event :=
  match t with None => [] | Some _ => [start_event plan] end.

Definition closing (t : option Telemetry) (c : Completion RunResult) : list Event :=
  match t, final_event c with
  | Some _, Some ev => [ev]
  | _, _ => []
  end.

(** The step calls of a log, telemetry calls dropped. *)
Definition step_calls (tr : list Event) : list Event := filter is_step_event tr.

(** ** Vocabulary of the further properties *)

(** A [Step] handed to [makePlan] (the [Step[]] alternative of its
    parameter type): its id is present. *)
Definition as_spec (s : Step) : StepSpec :=
  {| spec_id := IdString (step_id s);
     spec_name := step_name s;
     spec_action := step_action s;
     spec_when := step_when s |}.

(** The id member is [undefined] or [null]. *)
Definition nullish (a : IdField) : Prop := a = IdUndefined \/ a = IdNull.

(** The positions of the steps whose action was called, in call order. *)
Fixpoint action_indices (tr : list Event) : list nat :=
  match tr with
  | [] => []
  | EvAction j :: rest => j :: action_indices rest
  | _ :: rest => action_indices rest
  end.

(** The positions of the steps whose predicate was called, in call order. *)
Fixpoint when_indices (tr : list Event) : list nat :=
  match tr with
  | [] => []
  | EvWhen j :: rest => j :: when_indices rest
  | _ :: rest => when_indices rest
  end.

(** The start call returns normally, or there is no sink to call. *)
Definition start_returns (t : option Telemetry) (plan : Plan) : Prop :=
  match t with
  | None => True
  | Some tel =>
      tel_info tel "orchestrator.run.start"
        [("planId", VStr (plan_id plan)); ("name", VStr (plan_name plan))] = None
  end.

(** The position [j] lies in [lo, hi). *)
Definition in_range (lo hi : nat) (j : nat) : Prop := lo <= j < hi.

(** Calls of [telemetry.error] and of [telemetry.info] in a log (the
    [errorCalls] and [infoCalls] of the test mock). *)
Definition is_error_call (ev : Event) : bool :=
  match ev with EvError _ _ => true | _ => false end.

Definition is_info_call (ev : Event) : bool :=
  match ev with EvInfo _ _ => true | _ => false end.

Definition errorCalls (tr : list Event) : list Event := filter is_error_call tr.

Definition infoCalls (tr : list Event) : list Event := filter is_info_call tr.

(** The plan cut down to its first steps [pre]. *)
Definition with_steps (plan : Plan) (pre : list Step) : Plan :=
  {| plan_id := plan_id plan; plan_name := plan_name plan; plan_steps := pre |}.

(** ** The loop *)

Lemma for_of_app (pre post : list Step) :
  forall (i : nat) (st : LoopState),
    for_of i (pre ++ post) st =
    match for_of i pre st with
    | (st', Continue) => for_of (i + length pre) post st'
    | stop => stop
    end.
Proof.
  induction pre as [|s pre IH]; intros i st; simpl.
  - now rewrite Nat.add_0_r.
  - destruct (loop_body i s st) as [st1 [ | r | e]]; try reflexivity.
    rewrite IH. now replace (S i + length pre) with (i + S (length pre)) by lia.
Qed.

Lemma run_action_extends (i : nat) (s : Step) (st st' : LoopState) (c : Control) :
  run_action i s st = (st', c) ->
  ls_trace st' = (ls_trace st ++ [EvAction i])%list /\
  exists entry,
    ls_summary st' = (ls_summary st ++ entry)%list /\
    (c = Continue -> length entry = 1) /\
    (forall e, c = Raise e -> entry = []).
Proof.
  unfold run_action.
  destruct (step_action s (ls_ctx st)) as [c1 [[v | e] | e]]; intros H;
    inversion H; subst; clear H; simpl; split; try reflexivity.
  - exists [ok_entry s]. repeat split; intros; try reflexivity; discriminate.
  - exists [failed_entry s]. repeat split; intros; discriminate.
  - exists []. rewrite app_nil_r. repeat split; intros; discriminate.
Qed.

Lemma loop_body_extends (i : nat) (s : Step) (st st' : LoopState) (c : Control) :
  loop_body i s st = (st', c) ->
  exists evs entry,
    ls_trace st' = (ls_trace st ++ evs)%list /\
    Forall (step_event_in i (S i)) evs /\
    ls_summary st' = (ls_summary st ++ entry)%list /\
    (c = Continue -> length entry = 1).
Proof.
  unfold loop_body. destruct (step_when s) as [w|].
  - destruct (w (ls_ctx st)) as [[|]|e]; intros H.
    + apply run_action_extends in H. destruct H as (Ht & entry & Hs & Hlen & _).
      exists [EvWhen i; EvAction i], entry. simpl in *.
      rewrite Ht, <- app_assoc. repeat split; auto.
      repeat constructor; simpl; lia.
    + inversion H; subst; clear H. exists [EvWhen i], [ok_entry s]. simpl.
      repeat split; auto. repeat constructor; simpl; lia.
    + inversion H; subst; clear H. exists [EvWhen i], []. simpl.
      rewrite app_nil_r. repeat split; auto; try discriminate.
      repeat constructor; simpl; lia.
  - intros H. apply run_action_extends in H. destruct H as (Ht & entry & Hs & Hlen & _).
    exists [EvAction i], entry. repeat split; auto.
    repeat constructor; simpl; lia.
Qed.

Lemma step_event_in_weaken (lo hi lo' hi' : nat) (ev : Event) :
  lo' <= lo -> hi <= hi' -> step_event_in lo hi ev -> step_event_in lo' hi' ev.
Proof. destruct ev; simpl; intros; auto; lia. Qed.

(** The loop only appends: to the log, calls of the steps it walks over;
    to the summary, one entry per iteration that continues. *)
Lemma for_of_extends (todo : list Step) :
  forall (i : nat) (st st' : LoopState) (c : Control),
    for_of i todo st = (st', c) ->
    exists evs more,
      ls_trace st' = (ls_trace st ++ evs)%list /\
      Forall (step_event_in i (i + length todo)) evs /\
      ls_summary st' = (ls_summary st ++ more)%list /\
      (c = Continue -> length more = length todo).
Proof.
  induction todo as [|s rest IH]; intros i st st' c H; simpl in H.
  - inversion H; subst. exists [], []. rewrite !app_nil_r. auto.
  - destruct (loop_body i s st) as [st1 c1] eqn:Hb.
    destruct (loop_body_extends _ _ _ _ _ Hb) as (evs1 & en1 & Ht1 & Hin1 & Hs1 & Hl1).
    assert (Hw1 : Forall (step_event_in i (i + length (s :: rest))) evs1).
    { eapply Forall_impl; [|exact Hin1]. intros ev.
      apply step_event_in_weaken; simpl; lia. }
    destruct c1 as [ | r | e].
    + destruct (IH _ _ _ _ H) as (evs2 & en2 & Ht2 & Hin2 & Hs2 & Hl2).
      exists (evs1 ++ evs2)%list, (en1 ++ en2)%list.
      rewrite Ht2, Ht1, Hs2, Hs1, <- !app_assoc. repeat split; auto.
      * apply Forall_app. split; [exact Hw1|].
        eapply Forall_impl; [|exact Hin2]. intros ev.
        apply step_event_in_weaken; simpl; lia.
      * intros Hc. rewrite length_app, Hl1, Hl2 by auto. reflexivity.
    + inversion H; subst. exists evs1, en1. repeat split; auto. discriminate.
    + inversion H; subst. exists evs1, en1. repeat split; auto. discriminate.
Qed.

(** The log of [runPlan] holds step calls only. *)
Lemma for_of_step_events (todo : list Step) (i : nat) (st st' : LoopState) (c : Control) :
  for_of i todo st = (st', c) ->
  Forall (fun ev => is_step_event ev = true) (ls_trace st) ->
  Forall (fun ev => is_step_event ev = true) (ls_trace st').
Proof.
  intros H Hst. destruct (for_of_extends _ _ _ _ _ H) as (evs & _ & Ht & Hin & _).
  rewrite Ht. apply Forall_app. split; [exact Hst|].
  eapply Forall_impl; [|exact Hin]. intros [j|j|m a|m a]; simpl; tauto.
Qed.

(** A step that is not gated off goes straight to its action. *)
Lemma loop_body_gate_open (i : nat) (s : Step) (st : LoopState) :
  gate_open s (ls_ctx st) = true ->
  loop_body i s st = run_action i s (after_gate i s st).
Proof.
  unfold gate_open, loop_body, after_gate. destruct (step_when s) as [w|]; [|reflexivity].
  destruct (w (ls_ctx st)) as [[|]|e]; intros H; try discriminate. reflexivity.
Qed.

Lemma after_gate_ctx (i : nat) (s : Step) (st : LoopState) :
  ls_ctx (after_gate i s st) = ls_ctx st.
Proof. unfold after_gate. now destruct (step_when s). Qed.

Lemma after_gate_summary (i : nat) (s : Step) (st : LoopState) :
  ls_summary (after_gate i s st) = ls_summary st.
Proof. unfold after_gate. now destruct (step_when s). Qed.

(** A prefix that passes leaves the loop running, one [ok] entry pushed per
    step, in order. *)
Lemma for_of_passes (c c2 : StepContext) (todo : list Step) :
  Passes c todo c2 ->
  forall (i : nat) (st : LoopState),
    ls_ctx st = c ->
    exists st',
      for_of i todo st = (st', Continue) /\
      ls_ctx st' = c2 /\
      ls_summary st' = (ls_summary st ++ map ok_entry todo)%list.
Proof.
  induction 1 as [c | c c2 s rest [w [Hw Hf]] _ IH | c c1 c2 s v rest Hg Ha _ IH];
    intros i st Hc; simpl.
  - exists st. rewrite app_nil_r. auto.
  - unfold loop_body. rewrite Hw, Hc, Hf.
    destruct (IH (S i) (push (ok_entry s) (log (EvWhen i) st)) Hc) as (st' & Hrun & Hctx & Hsum).
    exists st'. unfold ok_entry in *. rewrite Hrun, Hsum. simpl.
    rewrite <- app_assoc. auto.
  - rewrite loop_body_gate_open by now rewrite Hc.
    unfold run_action. rewrite after_gate_ctx, Hc, Ha. simpl.
    match goal with |- context [for_of (S i) rest ?st1] => 
      destruct (IH (S i) st1 eq_refl) as (st' & Hrun & Hctx & Hsum) end.
    exists st'. rewrite Hrun, Hsum. simpl. rewrite after_gate_summary, <- app_assoc. auto.
Qed.

Lemma AllSucceed_Passes (c : StepContext) (todo : list Step) :
  AllSucceed c todo -> exists c2, Passes c todo c2.
Proof.
  induction 1 as [c | c c1 s v rest Hg Ha _ [c2 IH]].
  - exists c. constructor.
  - exists c2. eapply Passes_run; eauto.
Qed.

(** ** runPlan *)

Lemma runPlan_unfold (plan : Plan) (pre post : list Step) (s : Step) :
  plan_steps plan = (pre ++ s :: post)%list ->
  for_of 0 (plan_steps plan) init_state =
  match for_of 0 pre init_state with
  | (st, Continue) =>
      match loop_body (length pre) s st with
      | (st', Continue) => for_of (S (length pre)) post st'
      | stop => stop
      end
  | stop => stop
  end.
Proof. intros ->. rewrite for_of_app. reflexivity. Qed.

(** The scenarios of section 8 and of the test suite. *)
Example scenario_two_steps_succeed :
  snd (runPlan Fixtures.plan_two_ok) =
    Normal (Ok {| steps := [{| entry_id := "p-s1"; entry_ok := true |};
                            {| entry_id := "p-s2"; entry_ok := true |}] |}).
Proof. reflexivity. Qed.

Example scenario_first_step_fails :
  snd (runPlan Fixtures.plan_fail_first) =
    Normal (Err (VObject [("message", VStr "Step failed: a"); ("cause", VError "x")])) /\
  ls_trace (fst (runPlan Fixtures.plan_fail_first)) = [EvAction 0].
Proof. split; reflexivity. Qed.

Example scenario_gated_step :
  snd (runPlan Fixtures.plan_skip) =
    Normal (Ok {| steps := [{| entry_id := "p-s1"; entry_ok := true |}] |}) /\
  ls_trace (fst (runPlan Fixtures.plan_skip)) = [EvWhen 0].
Proof. split; reflexivity. Qed.

(** C1: when step k (here the step [s] at 0-based position [length pre], so
    k = [length pre + 1]) is the first step whose action returns a failing
    Result, [runPlan] resolves with the failure
    [{ message: "Step failed: " + s.name, cause: e }], its summary is the
    k entries of the steps up to and including [s], and the log holds no
    call of a step after [s]. *)
Theorem runPlan_stops_at_first_failure
    (plan : Plan) (pre post : list Step) (s : Step) (c c1 : StepContext) (e : Value) :
  plan_steps plan = (pre ++ s :: post)%list ->
  Passes init_ctx pre c ->
  gate_open s c = true ->
  step_action s c = (c1, Resolved (Err e)) ->
  exists st,
    runPlan plan =
      (st, Normal (Err (VObject [("message", VStr ("Step failed: " ++ step_name s));
                                 ("cause", e)]))) /\
    ls_summary st = (map ok_entry pre ++ [failed_entry s])%list /\
    length (ls_summary st) = length pre + 1 /\
    In (EvAction (length pre)) (ls_trace st) /\
    (forall j, length pre < j ->
       ~ In (EvAction j) (ls_trace st) /\ ~ In (EvWhen j) (ls_trace st)).
Proof.
  intros Hsteps Hpre Hgate Hact.
  destruct (for_of_passes _ _ _ Hpre 0 init_state eq_refl) as (st0 & Hrun0 & Hctx0 & Hsum0).
  destruct (for_of_extends _ _ _ _ _ Hrun0) as (evs0 & _ & Ht0 & Hin0 & _).
  assert (Hbody : loop_body (length pre) s st0 =
                  (push (failed_entry s)
                     (log (EvAction (length pre))
                        (with_ctx c1 (after_gate (length pre) s st0))),
                   Return (err (step_failed s e)))).
  { rewrite loop_body_gate_open by now rewrite Hctx0.
    unfold run_action. rewrite after_gate_ctx, Hctx0, Hact. reflexivity. }
  destruct (loop_body_extends _ _ _ _ _ Hbody) as (evs1 & _ & Ht1 & Hin1 & _).
  eexists. split; [|split; [|split; [|split]]].
  - unfold runPlan. rewrite (runPlan_unfold _ _ _ _ Hsteps), Hrun0, Hbody. reflexivity.
  - simpl. now rewrite after_gate_summary, Hsum0.
  - simpl. rewrite after_gate_summary, Hsum0. simpl.
    now rewrite length_app, length_map.
  - simpl. apply in_or_app. right. now left.
  - intros j Hj. rewrite Ht1, Ht0. simpl in Ht0, Hin0.
    split; intros Hin; apply in_app_or in Hin; destruct Hin as [Hin|Hin];
      try (apply in_app_or in Hin; destruct Hin as [Hin|Hin]);
      try contradiction;
      match goal with
      | H : Forall _ ?l, Hin : In _ ?l |- _ =>
          rewrite Forall_forall in H; apply H in Hin; simpl in Hin; lia
      end.
Qed.

(** C2: when every step runs (none is gated off) and resolves with a
    success Result, [runPlan] resolves with a success whose summary is
    [{ id, ok: true }] for each step of [plan.steps], in order: N entries
    for N steps, the i-th carrying the id of the i-th step. *)
Theorem runPlan_all_succeed (plan : Plan) :
  AllSucceed init_ctx (plan_steps plan) ->
  exists summary,
    snd (runPlan plan) = Normal (Ok {| steps := summary |}) /\
    summary = map ok_entry (plan_steps plan) /\
    length summary = length (plan_steps plan) /\
    (forall i s, nth_error (plan_steps plan) i = Some s ->
       nth_error summary i = Some {| entry_id := step_id s; entry_ok := true |}).
Proof.
  intros Hall. destruct (AllSucceed_Passes _ _ Hall) as [c2 Hpass].
  destruct (for_of_passes _ _ _ Hpass 0 init_state eq_refl) as (st & Hrun & _ & Hsum).
  exists (map ok_entry (plan_steps plan)). split; [|split; [|split]].
  - unfold runPlan. rewrite Hrun. simpl. now rewrite Hsum.
  - reflexivity.
  - apply length_map.
  - intros i s Hi. now rewrite nth_error_map, Hi.
Qed.

(** C6: when the run reaches a step [s] (at position [length pre], in loop
    state [st]) whose [when] returns false in the current context, the
    iteration pushes [{ id: s.id, ok: true }], logs the call of the
    predicate and nothing else, leaves the context as it was, and the loop
    goes on with the next step; the action of [s] is never called in the
    run and the summary entry at the position of [s] is that entry. *)
Theorem runPlan_skips_gated_step
    (plan : Plan) (pre post : list Step) (s : Step) (w : When) (st : LoopState) :
  plan_steps plan = (pre ++ s :: post)%list ->
  for_of 0 pre init_state = (st, Continue) ->
  step_when s = Some w ->
  w (ls_ctx st) = Normal false ->
  let st' := {| ls_ctx := ls_ctx st;
                ls_summary := (ls_summary st ++ [{| entry_id := step_id s; entry_ok := true |}])%list;
                ls_trace := (ls_trace st ++ [EvWhen (length pre)])%list |} in
  loop_body (length pre) s st = (st', Continue) /\
  for_of 0 (plan_steps plan) init_state = for_of (S (length pre)) post st' /\
  ~ In (EvAction (length pre)) (ls_trace (fst (runPlan plan))) /\
  nth_error (ls_summary (fst (runPlan plan))) (length pre) =
    Some {| entry_id := step_id s; entry_ok := true |}.
Proof.
  intros Hsteps Hpre Hw Hfalse st'.
  assert (Hbody : loop_body (length pre) s st = (st', Continue)).
  { unfold loop_body. rewrite Hw, Hfalse. reflexivity. }
  assert (Hloop : for_of 0 (plan_steps plan) init_state = for_of (S (length pre)) post st').
  { rewrite (runPlan_unfold _ _ _ _ Hsteps), Hpre, Hbody. reflexivity. }
  split; [exact Hbody|]. split; [exact Hloop|].
  destruct (for_of_extends _ _ _ _ _ Hpre) as (evs0 & en0 & Ht0 & Hin0 & Hs0 & Hl0).
  specialize (Hl0 eq_refl). simpl in Ht0, Hs0, Hin0.
  destruct (for_of (S (length pre)) post st') as [st2 c2] eqn:Hrest.
  destruct (for_of_extends _ _ _ _ _ Hrest) as (evs2 & en2 & Ht2 & Hin2 & Hs2 & _).
  assert (Hfst : fst (runPlan plan) = st2).
  { unfold runPlan. rewrite Hloop. now destruct c2. }
  rewrite Hfst, Ht2, Hs2. subst st'. simpl. rewrite Ht0, Hs0. split.
  - intros Hin. rewrite Forall_forall in Hin0, Hin2.
    apply in_app_or in Hin. destruct Hin as [Hin|Hin].
    + apply in_app_or in Hin. destruct Hin as [Hin|[Hin|[]]]; [|discriminate].
      apply Hin0 in Hin. simpl in Hin. lia.
    + apply Hin2 in Hin. simpl in Hin. lia.
  - rewrite <- app_assoc. rewrite nth_error_app2 by lia.
    now rewrite Hl0, Nat.sub_diag.
Qed.

(** ** makePlan *)

Section MakePlan.

Variable name : string.

Lemma normalize_length (specs : list StepSpec) :
  forall k, length (normalize name k specs) = length specs.
Proof. induction specs as [|sp rest IH]; intros k; simpl; [|rewrite IH]; reflexivity. Qed.

(** The element at index [i] of the mapped array is the normalized element
    at index [i] of the input, the callback having received [k + i]. *)
Lemma normalize_nth (specs : list StepSpec) :
  forall (k i : nat) (sp : StepSpec),
    nth_error specs i = Some sp ->
    nth_error (normalize name k specs) i =
    Some {| step_id := nullish_or (spec_id sp) (auto_id name (k + i));
            step_name := spec_name sp;
            step_action := spec_action sp;
            step_when := spec_when sp |}.
Proof.
  induction specs as [|sp0 rest IH]; intros k [|i] sp H; simpl in *; try discriminate.
  - inversion H; subst. now rewrite Nat.add_0_r.
  - rewrite (IH (S k) i sp H). now replace (S k + i) with (k + S i) by lia.
Qed.

Lemma append_cancel_l (p x y : string) : p ++ x = p ++ y -> x = y.
Proof. induction p as [|ch p IH]; simpl; intros H; [exact H|]. inversion H. auto. Qed.

Lemma nat_to_string_inj (n m : nat) : nat_to_string n = nat_to_string m -> n = m.
Proof.
  unfold nat_to_string. intros H.
  apply DecimalNat.Unsigned.to_uint_inj.
  assert (Hs : Some (Nat.to_uint n) = Some (Nat.to_uint m)).
  { rewrite <- !NilEmpty.usu. now rewrite H. }
  now inversion Hs.
Qed.

(** Generated ids differ as soon as the positions differ. *)
Lemma auto_id_inj (i j : nat) : auto_id name i = auto_id name j -> i = j.
Proof.
  unfold auto_id, asStepId. intros H.
  apply append_cancel_l in H. apply (append_cancel_l "-s") in H.
  apply nat_to_string_inj in H. lia.
Qed.

Lemma normalize_nullish_ids (specs : list StepSpec) :
  Forall (fun sp => spec_id sp = IdUndefined \/ spec_id sp = IdNull) specs ->
  forall k, map step_id (normalize name k specs) = map (auto_id name) (seq k (length specs)).
Proof.
  induction 1 as [|sp rest Hsp _ IH]; intros k; simpl; [reflexivity|].
  rewrite IH. now destruct Hsp as [-> | ->].
Qed.

Lemma auto_ids_NoDup (k n : nat) : NoDup (map (auto_id name) (seq k n)).
Proof.
  apply NoDup_map_NoDup_ForallPairs; [|apply seq_NoDup].
  intros i j _ _. apply auto_id_inj.
Qed.

End MakePlan.

(** The numeral of a position is its decimal notation. *)
Example nat_to_string_samples :
  nat_to_string 1 = "1" /\ nat_to_string 10 = "10" /\ nat_to_string 124 = "124".
Proof. repeat split. Qed.

(** Scenario of section 8: [makePlan("demo", [{ name: "hello", action }])]
    gives its single step the id ["demo-s1"]. *)
Example makePlan_demo :
  map step_id (plan_steps (makePlan "demo" [Fixtures.spec "hello" Fixtures.act_ok])) = ["demo-s1"].
Proof. reflexivity. Qed.

(** C7: [makePlan(name, steps)] returns a plan whose id is [name], whose
    steps are as many as the input and in the same order, each copying
    [name], [action] and [when] of the input element at the same index; an
    element without an id gets [name ++ "-s" ++ decimal (index + 1)], an
    element with an id keeps it. *)
Theorem makePlan_normalizes (name : string) (specs : list StepSpec) :
  plan_id (makePlan name specs) = name /\
  length (plan_steps (makePlan name specs)) = length specs /\
  forall (i : nat) (sp : StepSpec),
    nth_error specs i = Some sp ->
    exists st,
      nth_error (plan_steps (makePlan name specs)) i = Some st /\
      step_name st = spec_name sp /\
      step_action st = spec_action sp /\
      step_when st = spec_when sp /\
      (spec_id sp = IdUndefined -> step_id st = name ++ "-s" ++ nat_to_string (i + 1)) /\
      (forall id, spec_id sp = IdString id -> step_id st = id).
Proof.
  split; [reflexivity|]. split; [apply normalize_length|].
  intros i sp Hi. eexists. split; [exact (normalize_nth name specs 0 i sp Hi)|].
  simpl. repeat split.
  - now intros ->.
  - now intros id ->.
Qed.

(** C10: an id is replaced only when it is [undefined] or [null]: a string
    id, the empty string included, is kept; and when every input element
    lacks an id, the ids of the plan are the generated ones, a function of
    [name] and the position alone, and pairwise distinct. *)
Theorem makePlan_ids (name : string) (specs : list StepSpec) :
  (forall (i : nat) (sp : StepSpec),
     nth_error specs i = Some sp ->
     exists st,
       nth_error (plan_steps (makePlan name specs)) i = Some st /\
       (forall id, spec_id sp = IdString id -> step_id st = id) /\
       (spec_id sp = IdString "" -> step_id st = "") /\
       (spec_id sp = IdUndefined \/ spec_id sp = IdNull ->
          step_id st = name ++ "-s" ++ nat_to_string (i + 1))) /\
  (Forall (fun sp => spec_id sp = IdUndefined \/ spec_id sp = IdNull) specs ->
     map step_id (plan_steps (makePlan name specs)) =
       map (fun i => name ++ "-s" ++ nat_to_string (i + 1)) (seq 0 (length specs)) /\
     NoDup (map step_id (plan_steps (makePlan name specs)))).
Proof.
  split.
  - intros i sp Hsp. eexists.
    split; [exact (normalize_nth name specs 0 i sp Hsp)|].
    simpl. repeat split.
    + now intros id ->.
    + now intros ->.
    + now intros [-> | ->].
  - intros Hall. simpl. rewrite (normalize_nullish_ids name specs Hall 0).
    split; [reflexivity|]. apply auto_ids_NoDup.
Qed.

(** Expose the primitive steps of [run]. *)
Ltac unfold_run :=
  unfold run_once, run, try_catch, bind, await_runPlan, telemetry_error_args, exception_attrs,
    throw, telemetry_info, telemetry_error, ret.

Section Orchestrator.

Variable plan : Plan.

Lemma runPlan_step_events :
  Forall (fun ev => is_step_event ev = true) (ls_trace (fst (runPlan plan))).
Proof.
  unfold runPlan.
  destruct (for_of 0 (plan_steps plan) init_state) as [st c] eqn:H.
  apply for_of_step_events in H; [|constructor].
  now destruct c.
Qed.

(** With a sink that never throws, or with none, [run] is the runner
    between the opening and the closing telemetry call; it resolves with
    the runner's completion settled into a Result, unless there is a sink
    and computing the message of a thrown value throws. *)
Lemma run_quiet (t : option Telemetry) :
  quiet t ->
  run_once t plan =
  ((opening t plan ++ ls_trace (fst (runPlan plan)) ++ closing t (snd (runPlan plan)))%list,
   outcome t (snd (runPlan plan))).
Proof.
  unfold_run. unfold closing, outcome, final_event.
  destruct (runPlan plan) as [st c]. destruct t as [tel|]; simpl.
  - intros [Hinfo Herror]. rewrite Hinfo.
    destruct c as [[v|e]|e]; simpl; rewrite ?Hinfo, ?Herror; simpl;
      try (now rewrite <- ?app_assoc).
    destruct (exception_message e) as [m|te]; simpl; rewrite ?Herror;
      now rewrite <- ?app_assoc, ?app_nil_r.
  - intros _. destruct c as [[v|e]|e]; simpl; now rewrite app_nil_r.
Qed.

(** Whatever the sink does, the first thing [run] does with a sink is to
    call [info("orchestrator.run.start")]; no step has run by then. *)
Lemma run_starts_with_start (tel : Telemetry) :
  exists rest, fst (run_once (Some tel) plan) = start_event plan :: rest.
Proof.
  assert (Hcatch : forall (e : Value) (tr : list Event),
             exists rest,
               fst ((telemetry_error_args (Some tel) "orchestrator.run.exception"
                       (exception_attrs e) ;; ret (err (T := RunValue) e))
                      (start_event plan :: tr)) = start_event plan :: rest).
  { intros e tr. unfold_run. destruct (exception_message e) as [m|te]; simpl.
    - destruct (tel_error tel _ _); eexists; reflexivity.
    - eexists; reflexivity. }
  unfold run_once, run, try_catch, bind at 1 2, await_runPlan, telemetry_info.
  simpl. destruct (tel_info tel "orchestrator.run.start" _) as [e0|].
  - apply Hcatch.
  - destruct (runPlan plan) as [st [[v|e]|e]]; unfold bind, telemetry_error, ret; simpl.
    + destruct (tel_info tel _ _); [apply Hcatch | eexists; reflexivity].
    + destruct (tel_error tel "orchestrator.run.error" _);
        [apply Hcatch | eexists; reflexivity].
    + apply Hcatch.
Qed.

Lemma final_event_is_final (c : Completion RunResult) (ev : Event) :
  final_event c = Some ev -> is_final_event ev = true.
Proof.
  destruct c as [[v|e]|e]; simpl; try (intros H; inversion H; reflexivity).
  destruct (exception_message e); intros H; inversion H; reflexivity.
Qed.

Lemma no_final_among_steps (tr : list Event) :
  Forall (fun ev => is_step_event ev = true) tr -> filter is_final_event tr = [].
Proof.
  induction 1 as [|ev tr Hev _ IH]; simpl; [reflexivity|].
  rewrite IH. now destruct ev.
Qed.

(** No closing call is a step call. *)
Lemma closing_no_step_calls (t : option Telemetry) (c : Completion RunResult) :
  filter is_step_event (closing t c) = [].
Proof.
  unfold closing. destruct t; [|reflexivity].
  destruct c as [[v|e]|e]; simpl; try reflexivity.
  now destruct (exception_message e).
Qed.

(** The step calls of a log of step calls. *)
Lemma step_calls_of_steps (tr : list Event) :
  Forall (fun ev => is_step_event ev = true) tr -> step_calls tr = tr.
Proof.
  unfold step_calls. induction 1 as [|ev tr Hev _ IH]; simpl; [reflexivity|].
  now rewrite Hev, IH.
Qed.

(** With a quiet sink or none, the step calls of [run] are the runner's. *)
Lemma run_quiet_step_calls (t : option Telemetry) :
  quiet t -> step_calls (fst (run_once t plan)) = ls_trace (fst (runPlan plan)).
Proof.
  intros Hq. rewrite (run_quiet t Hq). simpl. unfold step_calls.
  rewrite !filter_app, closing_no_step_calls, app_nil_r.
  assert (Ho : filter is_step_event (opening t plan) = []) by now destruct t.
  rewrite Ho. simpl. apply step_calls_of_steps, runPlan_step_events.
Qed.

End Orchestrator.

(** A step that throws makes [runPlan] throw the same value. *)
Lemma runPlan_throws
    (plan : Plan) (pre post : list Step) (s : Step) (c : StepContext) (e : Value) :
  plan_steps plan = (pre ++ s :: post)%list ->
  Passes init_ctx pre c ->
  StepThrows s c e ->
  snd (runPlan plan) = Throw e.
Proof.
  intros Hsteps Hpre Hthrow.
  destruct (for_of_passes _ _ _ Hpre 0 init_state eq_refl) as (st0 & Hrun0 & Hctx0 & _).
  unfold runPlan. rewrite (runPlan_unfold _ _ _ _ Hsteps), Hrun0.
  destruct Hthrow as [w Hw Hthrow | c1 Hgate Hact].
  - unfold loop_body. rewrite Hw, Hctx0, Hthrow. reflexivity.
  - rewrite loop_body_gate_open by now rewrite Hctx0.
    unfold run_action. rewrite after_gate_ctx, Hctx0, Hact. reflexivity.
Qed.

Section OrchestratorProperties.

Import Fixtures.

(** C3, as stated, fails: a sink whose [info] throws on the start event
    turns the successful run of [plan_two_ok] into a failure carrying the
    sink's exception, and a sink whose every method throws makes the
    promise reject.  Even [NoopTelemetry] changes the outcome: when a step
    throws [{ toString: 1 }], computing the message for the exception
    event throws, so the promise rejects, while without telemetry the
    message is never computed and the promise resolves. *)
Lemma throwing_telemetry_changes_result :
  snd (run_once None plan_two_ok) =
    Normal (Ok {| steps := [{| entry_id := "p-s1"; entry_ok := true |};
                            {| entry_id := "p-s2"; entry_ok := true |}] |}) /\
  snd (run_once (Some (tel_info_throws_on "orchestrator.run.start" (VStr "sink down")))
         plan_two_ok) = Normal (Err (VStr "sink down")) /\
  snd (run_once (Some (tel_throwing (VStr "sink down"))) plan_two_ok) =
    Throw (VStr "sink down") /\
  snd (run_once (Some (tel_throwing (VStr "sink down"))) plan_two_ok) <>
    snd (run_once None plan_two_ok) /\
  snd (run_once None (plan_throw unprintable)) = Normal (Err unprintable) /\
  snd (run_once (Some NoopTelemetry) (plan_throw unprintable)) = Throw cannot_convert.
Proof. repeat split. discriminate. Qed.

(** C3, amended: with no telemetry or with any sink whose [info] and
    [error] calls return normally, the same step calls are made as with no
    telemetry, and [run] returns the same Result as with no telemetry
    provided that, when the runner throws [e], the message
    [e?.message || String(e)] of the exception event can be computed.
    When computing it throws, [run] with a sink rejects with what that
    threw, while [run] without telemetry resolves with the failure
    wrapping [e]. *)
Theorem run_result_independent_of_quiet_telemetry (t : option Telemetry) (plan : Plan) :
  quiet t ->
  step_calls (fst (run_once t plan)) = step_calls (fst (run_once None plan)) /\
  ((forall e, snd (runPlan plan) = Throw e -> exists m, exception_message e = Normal m) ->
   snd (run_once t plan) = snd (run_once None plan)) /\
  (forall tel e te,
     t = Some tel -> snd (runPlan plan) = Throw e -> exception_message e = Throw te ->
     snd (run_once t plan) = Throw te /\ snd (run_once None plan) = Normal (Err e)).
Proof.
  intros Hq. split; [|split].
  - now rewrite (run_quiet_step_calls plan t Hq), (run_quiet_step_calls plan None I).
  - intros Hmsg. rewrite (run_quiet plan t Hq), (run_quiet plan None I). simpl.
    destruct t as [tel|]; [|reflexivity].
    destruct (snd (runPlan plan)) as [r|e]; simpl; [reflexivity|].
    destruct (Hmsg e eq_refl) as [m ->]. reflexivity.
  - intros tel e te -> Hrun Hmsg.
    rewrite (run_quiet plan (Some tel) Hq), (run_quiet plan None I), Hrun. simpl.
    now rewrite Hmsg.
Qed.

(** C4, as stated, fails: a thrown empty string is logged with the empty
    message; [new Error("")] is logged as ["Error"], not as its message;
    when the sink's [error] throws on the exception event the promise
    rejects instead of resolving with a failure Result; and when a step
    throws [{ toString: 1 }], computing the message throws inside the
    catch block: no exception event is emitted and the promise rejects
    with the TypeError. *)
Lemma exception_message_can_be_empty :
  run_once (Some NoopTelemetry) (plan_throw (VStr "")) =
    ([EvInfo "orchestrator.run.start" [("planId", VStr "p"); ("name", VStr "p")];
      EvAction 0;
      EvError "orchestrator.run.exception" [("error", VStr "")]],
     Normal (Err (VStr ""))) /\
  exception_message (VError "") = Normal (VStr "Error") /\
  snd (run_once (Some (tel_error_throws_on "orchestrator.run.exception" (VStr "sink down")))
         (plan_throw (VError "kaboom"))) = Throw (VStr "sink down") /\
  run_once (Some NoopTelemetry) (plan_throw unprintable) =
    ([EvInfo "orchestrator.run.start" [("planId", VStr "p"); ("name", VStr "p")];
      EvAction 0],
     Throw cannot_convert).
Proof. repeat split. Qed.

(** C4, amended: when a step's predicate or action throws [e] (the steps
    before it passing) and the sink's calls return normally: without
    telemetry [run] resolves with the failure Result whose error is [e];
    with a sink, when [e.message] is truthy the last call is
    [error("orchestrator.run.exception")] carrying [e.message], when it is
    falsy and [String(e)] returns [s] the last call carries [s], and in
    both cases [run] resolves with the failure Result whose error is [e];
    when [e.message] is falsy and [String(e)] throws, no exception event
    is emitted and [run] rejects with what [String(e)] threw.  A thrown
    string is logged as itself, non-empty when the string is. *)
Theorem run_catches_thrown_step
    (t : option Telemetry) (plan : Plan) (pre post : list Step) (s : Step)
    (c : StepContext) (e : Value) :
  quiet t ->
  plan_steps plan = (pre ++ s :: post)%list ->
  Passes init_ctx pre c ->
  StepThrows s c e ->
  (t = None -> snd (run_once t plan) = Normal (Err e)) /\
  (forall tel, t = Some tel -> js_truthy (js_opt_get e "message") = true ->
     snd (run_once t plan) = Normal (Err e) /\
     fst (run_once t plan) =
       (start_event plan :: ls_trace (fst (runPlan plan)) ++
        [EvError "orchestrator.run.exception" [("error", js_opt_get e "message")]])%list) /\
  (forall tel str, t = Some tel -> js_truthy (js_opt_get e "message") = false ->
     js_String e = Normal str ->
     snd (run_once t plan) = Normal (Err e) /\
     fst (run_once t plan) =
       (start_event plan :: ls_trace (fst (runPlan plan)) ++
        [EvError "orchestrator.run.exception" [("error", VStr str)]])%list) /\
  (forall tel te, t = Some tel -> js_truthy (js_opt_get e "message") = false ->
     js_String e = Throw te ->
     snd (run_once t plan) = Throw te /\
     fst (run_once t plan) = start_event plan :: ls_trace (fst (runPlan plan))) /\
  (forall m, e = VStr m ->
     js_truthy (js_opt_get e "message") = false /\ js_String e = Normal m).
Proof.
  intros Hq Hsteps Hpre Hthrow.
  pose proof (runPlan_throws _ _ _ _ _ _ Hsteps Hpre Hthrow) as Hrun.
  rewrite (run_quiet plan t Hq), Hrun. unfold closing, outcome, final_event, exception_message.
  split; [|split; [|split; [|split]]].
  - now intros ->.
  - intros tel -> Hm. simpl. rewrite Hm. simpl. auto.
  - intros tel str -> Hm Hstr. simpl. rewrite Hm, Hstr. simpl. auto.
  - intros tel te -> Hm Hstr. simpl. rewrite Hm, Hstr. simpl. now rewrite app_nil_r.
  - intros m ->. split; reflexivity.
Qed.

(** C5, as stated, fails: a sink whose [info] throws on the ok event turns
    the runner's success into a failure, and a sink whose [error] throws on
    the error event replaces the runner's error by the sink's exception. *)
Lemma throwing_telemetry_turns_success_into_failure :
  snd (runPlan plan_two_ok) =
    Normal (Ok {| steps := [{| entry_id := "p-s1"; entry_ok := true |};
                            {| entry_id := "p-s2"; entry_ok := true |}] |}) /\
  snd (run_once (Some (tel_info_throws_on "orchestrator.run.ok" (VStr "sink down")))
         plan_two_ok) = Normal (Err (VStr "sink down")) /\
  snd (runPlan plan_fail_first) =
    Normal (Err (VObject [("message", VStr "Step failed: a"); ("cause", VError "x")])) /\
  snd (run_once (Some (tel_error_throws_on "orchestrator.run.error" (VStr "sink down")))
         plan_fail_first) = Normal (Err (VStr "sink down")) /\
  snd (run_once (Some (tel_info_throws_on "orchestrator.run.ok" (VStr "sink down")))
         plan_two_ok) <> snd (runPlan plan_two_ok).
Proof. repeat split. discriminate. Qed.

(** C5, amended: when [runPlan] resolves with a Result and the sink's calls
    return normally (or there is no sink), [run] resolves with that very
    Result: a failure with the runner's error, a success with the runner's
    value. *)
Theorem run_returns_runner_result (t : option Telemetry) (plan : Plan) (r : RunResult) :
  quiet t ->
  snd (runPlan plan) = Normal r ->
  snd (run_once t plan) = Normal r /\
  (forall e, r = Err e -> snd (run_once t plan) = Normal (Err e)) /\
  (forall v, r = Ok v -> snd (run_once t plan) = Normal (Ok v)).
Proof.
  intros Hq Hr. rewrite (run_quiet plan t Hq), Hr.
  assert (Hout : outcome t (Normal r) = Normal r) by now destruct t.
  simpl. rewrite Hout.
  repeat split; now intros ? ->.
Qed.

(** C8, as stated, fails: with a sink whose [info] throws on the ok event
    the log of one run holds two closing events, ok and then exception;
    and with [NoopTelemetry], when a step throws [{ toString: 1 }], the log
    holds no closing event at all and the promise rejects. *)
Lemma throwing_telemetry_two_closing_events :
  fst (run_once (Some (tel_info_throws_on "orchestrator.run.ok" (VStr "sink down")))
         plan_two_ok) =
    [EvInfo "orchestrator.run.start" [("planId", VStr "p"); ("name", VStr "p")];
     EvAction 0; EvAction 1;
     EvInfo "orchestrator.run.ok" [("steps", js_number 2)];
     EvError "orchestrator.run.exception" [("error", VStr "sink down")]] /\
  length (filter is_final_event
            (fst (run_once (Some (tel_info_throws_on "orchestrator.run.ok" (VStr "sink down")))
                    plan_two_ok))) = 2 /\
  run_once (Some NoopTelemetry) (plan_throw unprintable) =
    ([EvInfo "orchestrator.run.start" [("planId", VStr "p"); ("name", VStr "p")];
      EvAction 0],
     Throw cannot_convert) /\
  length (filter is_final_event
            (fst (run_once (Some NoopTelemetry) (plan_throw unprintable)))) = 0.
Proof. repeat split. Qed.

(** C8, amended: with a sink, the log of a run begins with the start
    event, before any step call.  When the sink's [info] and [error] calls
    return normally and, in case the runner throws [e], the message
    [e?.message || String(e)] can be computed, the rest of the log is the
    step calls of the runner followed by exactly one of the ok, error and
    exception events, and the promise resolves with a Result once that
    event is logged.  When the sink's calls return normally but computing
    the message throws, the log is the start event and the step calls, no
    closing event is emitted, and the promise rejects. *)
Theorem run_trace_shape (tel : Telemetry) (plan : Plan) :
  (exists rest,
     fst (run_once (Some tel) plan) =
     EvInfo "orchestrator.run.start"
       [("planId", VStr (plan_id plan)); ("name", VStr (plan_name plan))] :: rest) /\
  (quiet (Some tel) ->
   ((forall e, snd (runPlan plan) = Throw e -> exists m, exception_message e = Normal m) ->
    exists (calls : list Event) (final : Event) (r : RunResult),
      run_once (Some tel) plan =
        ((EvInfo "orchestrator.run.start"
            [("planId", VStr (plan_id plan)); ("name", VStr (plan_name plan))]
          :: calls ++ [final])%list, Normal r) /\
      calls = ls_trace (fst (runPlan plan)) /\
      Forall (fun ev => is_step_event ev = true) calls /\
      is_final_event final = true /\
      length (filter is_final_event (fst (run_once (Some tel) plan))) = 1) /\
   (forall e te, snd (runPlan plan) = Throw e -> exception_message e = Throw te ->
      run_once (Some tel) plan =
        (EvInfo "orchestrator.run.start"
           [("planId", VStr (plan_id plan)); ("name", VStr (plan_name plan))]
         :: ls_trace (fst (runPlan plan)), Throw te) /\
      filter is_final_event (fst (run_once (Some tel) plan)) = [])).
Proof.
  split; [apply run_starts_with_start|].
  intros Hq. rewrite (run_quiet plan (Some tel) Hq).
  pose proof (runPlan_step_events plan) as Hsteps.
  split.
  - intros Hmsg.
    assert (Hfinal : exists final r,
               final_event (snd (runPlan plan)) = Some final /\
               outcome (Some tel) (snd (runPlan plan)) = Normal r).
    { destruct (snd (runPlan plan)) as [[v|x]|e] eqn:Hrun; simpl; eauto.
      destruct (Hmsg e eq_refl) as [m ->]. eauto. }
    destruct Hfinal as (final & r & Hfin & Hout).
    exists (ls_trace (fst (runPlan plan))), final, r.
    unfold closing. rewrite Hfin, Hout. simpl.
    pose proof (final_event_is_final _ _ Hfin) as Hisfinal.
    repeat split; auto.
    rewrite filter_app, (no_final_among_steps _ Hsteps). simpl. now rewrite Hisfinal.
  - intros e te Hrun Hmsg. rewrite Hrun. unfold closing, outcome, final_event.
    rewrite Hmsg. simpl. rewrite app_nil_r. split; [reflexivity|].
    apply (no_final_among_steps _ Hsteps).
Qed.

(** C9: constructed without telemetry, [run] never rejects: whatever the
    steps do, the promise resolves with a Result, the runner's own when it
    returned one and the failure wrapping the thrown value otherwise. *)
Theorem run_without_telemetry_resolves (plan : Plan) :
  exists r : RunResult,
    snd (run_once None plan) = Normal r /\
    (forall e, snd (runPlan plan) = Throw e -> r = Err e) /\
    (forall r0, snd (runPlan plan) = Normal r0 -> r = r0).
Proof.
  exists (settle (snd (runPlan plan))). rewrite (run_quiet plan None I). simpl.
  repeat split; now intros ? ->.
Qed.

(** The exception tests: an action throwing an Error or a string, and a
    predicate that throws, all end in a failure Result without telemetry. *)
Example run_without_telemetry_samples :
  run_once None (plan_throw (VError "kaboom")) = ([EvAction 0], Normal (Err (VError "kaboom"))) /\
  run_once None (plan_throw (VStr "boom")) = ([EvAction 0], Normal (Err (VStr "boom"))) /\
  run_once None (makePlan "p" [spec_gated "g" (fun _ => Throw VNull) act_ok]) =
    ([EvWhen 0], Normal (Err VNull)).
Proof. repeat split. Qed.

End OrchestratorProperties.

(** ** The statements at the plans of the test suite *)

Section Witnesses.

Import Fixtures.

Lemma runPlan_stops_at_first_failure_witness :
  Passes init_ctx [step_a] ctx_seen /\
  exists st,
    runPlan plan_fail_second =
      (st, Normal (Err (VObject [("message", VStr "Step failed: b");
                                 ("cause", VError "x")]))) /\
    ls_summary st = [{| entry_id := "p-s1"; entry_ok := true |};
                     {| entry_id := "p-s2"; entry_ok := false |}] /\
    length (ls_summary st) = 2 /\
    In (EvAction 1) (ls_trace st) /\
    (forall j, 1 < j -> ~ In (EvAction j) (ls_trace st) /\ ~ In (EvWhen j) (ls_trace st)).
Proof.
  assert (Hp : Passes init_ctx [step_a] ctx_seen).
  { eapply Passes_run; [reflexivity | reflexivity | constructor]. }
  split; [exact Hp|].
  exact (runPlan_stops_at_first_failure plan_fail_second [step_a] [step_c] step_b_fails
           ctx_seen ctx_seen (VError "x") eq_refl Hp eq_refl eq_refl).
Defined.

Lemma runPlan_all_succeed_witness :
  exists summary,
    snd (runPlan plan_two_ok) = Normal (Ok {| steps := summary |}) /\
    summary = [{| entry_id := "p-s1"; entry_ok := true |};
               {| entry_id := "p-s2"; entry_ok := true |}] /\
    length summary = 2 /\
    (forall i s, nth_error (plan_steps plan_two_ok) i = Some s ->
       nth_error summary i = Some {| entry_id := step_id s; entry_ok := true |}).
Proof.
  apply (runPlan_all_succeed plan_two_ok).
  eapply AllSucceed_cons; [reflexivity | reflexivity | ].
  eapply AllSucceed_cons; [reflexivity | reflexivity | ].
  apply AllSucceed_nil.
Defined.

Lemma runPlan_skips_gated_step_witness :
  loop_body 1 step_b_gated state_after_a =
    ({| ls_ctx := ctx_seen;
        ls_summary := [{| entry_id := "p-s1"; entry_ok := true |};
                       {| entry_id := "p-s2"; entry_ok := true |}];
        ls_trace := [EvAction 0; EvWhen 1] |}, Continue) /\
  ~ In (EvAction 1) (ls_trace (fst (runPlan plan_skip_middle))) /\
  nth_error (ls_summary (fst (runPlan plan_skip_middle))) 1 =
    Some {| entry_id := "p-s2"; entry_ok := true |}.
Proof.
  pose proof (runPlan_skips_gated_step plan_skip_middle [step_a] [step_c] step_b_gated
                never state_after_a eq_refl eq_refl eq_refl eq_refl) as H.
  simpl in H. destruct H as (Hbody & _ & Hcalls & Hentry).
  split; [exact Hbody|]. split; [exact Hcalls | exact Hentry].
Defined.

Lemma makePlan_normalizes_witness :
  plan_id (makePlan "demo" [spec "hello" act_ok]) = "demo" /\
  exists st,
    nth_error (plan_steps (makePlan "demo" [spec "hello" act_ok])) 0 = Some st /\
    step_name st = "hello" /\
    step_id st = "demo-s1".
Proof.
  destruct (makePlan_normalizes "demo" [spec "hello" act_ok]) as (Hid & _ & Hsteps).
  split; [exact Hid|].
  destruct (Hsteps 0 (spec "hello" act_ok) eq_refl) as (st & Hnth & Hname & _ & _ & Hauto & _).
  exists st. split; [exact Hnth|]. split; [exact Hname | exact (Hauto eq_refl)].
Defined.

Lemma makePlan_ids_witness :
  (exists st, nth_error (plan_steps (makePlan "p" specs_mixed)) 1 = Some st /\ step_id st = "") /\
  (exists st, nth_error (plan_steps (makePlan "p" specs_mixed)) 2 = Some st /\
              step_id st = "p-s3") /\
  NoDup (map step_id (plan_steps (makePlan "p" [spec "a" act_ok; spec "b" act_ok]))).
Proof.
  split; [|split].
  - destruct (proj1 (makePlan_ids "p" specs_mixed) 1
                (spec_with_id (IdString "") "b" act_ok) eq_refl) as (st & Hst & _ & Hempty & _).
    exists st. split; [exact Hst | exact (Hempty eq_refl)].
  - destruct (proj1 (makePlan_ids "p" specs_mixed) 2
                (spec_with_id IdNull "c" act_ok) eq_refl) as (st & Hst & _ & _ & Hnull).
    exists st. split; [exact Hst | exact (Hnull (or_intror eq_refl))].
  - apply (proj2 (makePlan_ids "p" [spec "a" act_ok; spec "b" act_ok])).
    repeat constructor.
Defined.

Lemma quiet_noop : quiet (Some NoopTelemetry).
Proof. split; reflexivity. Defined.

Lemma run_result_independent_of_quiet_telemetry_witness :
  quiet (Some NoopTelemetry) /\
  step_calls (fst (run_once (Some NoopTelemetry) (plan_throw (VStr "boom")))) =
    step_calls (fst (run_once None (plan_throw (VStr "boom")))) /\
  snd (run_once (Some NoopTelemetry) (plan_throw (VStr "boom"))) =
    snd (run_once None (plan_throw (VStr "boom"))) /\
  snd (run_once (Some NoopTelemetry) (plan_throw unprintable)) = Throw cannot_convert /\
  snd (run_once None (plan_throw unprintable)) = Normal (Err unprintable).
Proof.
  split; [exact quiet_noop|].
  destruct (run_result_independent_of_quiet_telemetry (Some NoopTelemetry)
              (plan_throw (VStr "boom")) quiet_noop) as (Hcalls & Hres & _).
  split; [exact Hcalls|]. split.
  - apply Hres. intros e He. inversion He. exists (VStr "boom"). reflexivity.
  - exact (proj2 (proj2 (run_result_independent_of_quiet_telemetry (Some NoopTelemetry)
                           (plan_throw unprintable) quiet_noop))
             NoopTelemetry unprintable cannot_convert eq_refl eq_refl eq_refl).
Defined.

Lemma run_catches_thrown_step_witness :
  (snd (run_once (Some NoopTelemetry) (plan_throw (VStr "boom"))) = Normal (Err (VStr "boom")) /\
   fst (run_once (Some NoopTelemetry) (plan_throw (VStr "boom"))) =
     [EvInfo "orchestrator.run.start" [("planId", VStr "p"); ("name", VStr "p")];
      EvAction 0;
      EvError "orchestrator.run.exception" [("error", VStr "boom")]]) /\
  (snd (run_once (Some NoopTelemetry) (plan_throw unprintable)) = Throw cannot_convert /\
   fst (run_once (Some NoopTelemetry) (plan_throw unprintable)) =
     [EvInfo "orchestrator.run.start" [("planId", VStr "p"); ("name", VStr "p")];
      EvAction 0]).
Proof.
  assert (Hboom : StepThrows (step_boom (VStr "boom")) init_ctx (VStr "boom")).
  { apply (Throws_action _ _ _ init_ctx); reflexivity. }
  assert (Hbad : StepThrows (step_boom unprintable) init_ctx unprintable).
  { apply (Throws_action _ _ _ init_ctx); reflexivity. }
  split.
  - destruct (run_catches_thrown_step (Some NoopTelemetry) (plan_throw (VStr "boom"))
                [] [] (step_boom (VStr "boom")) init_ctx (VStr "boom")
                quiet_noop eq_refl (Passes_nil init_ctx) Hboom) as (_ & _ & Hstr & _).
    exact (Hstr NoopTelemetry "boom" eq_refl eq_refl eq_refl).
  - destruct (run_catches_thrown_step (Some NoopTelemetry) (plan_throw unprintable)
                [] [] (step_boom unprintable) init_ctx unprintable
                quiet_noop eq_refl (Passes_nil init_ctx) Hbad) as (_ & _ & _ & Hthrows & _).
    exact (Hthrows NoopTelemetry cannot_convert eq_refl eq_refl eq_refl).
Defined.

Lemma run_returns_runner_result_witness :
  snd (run_once (Some NoopTelemetry) plan_fail_first) =
    Normal (Err (VObject [("message", VStr "Step failed: a"); ("cause", VError "x")])).
Proof.
  exact (proj1 (run_returns_runner_result (Some NoopTelemetry) plan_fail_first
                  (Err (VObject [("message", VStr "Step failed: a"); ("cause", VError "x")]))
                  quiet_noop eq_refl)).
Defined.

Lemma run_trace_shape_witness :
  (exists (calls : list Event) (final : Event) (r : RunResult),
     run_once (Some NoopTelemetry) (plan_throw (VStr "boom")) =
       ((EvInfo "orchestrator.run.start" [("planId", VStr "p"); ("name", VStr "p")]
         :: calls ++ [final])%list, Normal r) /\
     calls = ls_trace (fst (runPlan (plan_throw (VStr "boom")))) /\
     Forall (fun ev => is_step_event ev = true) calls /\
     is_final_event final = true /\
     length (filter is_final_event
               (fst (run_once (Some NoopTelemetry) (plan_throw (VStr "boom"))))) = 1) /\
  (run_once (Some NoopTelemetry) (plan_throw unprintable) =
     ([EvInfo "orchestrator.run.start" [("planId", VStr "p"); ("name", VStr "p")];
       EvAction 0], Throw cannot_convert) /\
   filter is_final_event (fst (run_once (Some NoopTelemetry) (plan_throw unprintable))) = []).
Proof.
  split.
  - apply (proj1 (proj2 (run_trace_shape NoopTelemetry (plan_throw (VStr "boom"))) quiet_noop)).
    intros e He. inversion He. exists (VStr "boom"). reflexivity.
  - exact (proj2 (proj2 (run_trace_shape NoopTelemetry (plan_throw unprintable)) quiet_noop)
             unprintable cannot_convert eq_refl eq_refl).
Defined.

End Witnesses.

(** ** Further properties of the runner *)

Section RunnerInversion.

(** What one iteration did, read back from how it ended. *)
Lemma loop_body_inv (i : nat) (s : Step) (st st' : LoopState) (ctl : Control) :
  loop_body i s st = (st', ctl) ->
  match ctl with
  | Continue =>
      (gated_off s (ls_ctx st) /\ ls_ctx st' = ls_ctx st) \/
      (exists v, gate_open s (ls_ctx st) = true /\
                 step_action s (ls_ctx st) = (ls_ctx st', Resolved (Ok v)))
  | Return r =>
      exists c1 e, gate_open s (ls_ctx st) = true /\
                   step_action s (ls_ctx st) = (c1, Resolved (Err e)) /\
                   r = Err (step_failed s e)
  | Raise e => StepThrows s (ls_ctx st) e
  end.
Proof.
  unfold loop_body, run_action, gated_off.
  destruct (step_when s) as [w|] eqn:Hw.
  - assert (Hopen : w (ls_ctx st) = Normal true -> gate_open s (ls_ctx st) = true).
    { intros Hwc. unfold gate_open. now rewrite Hw, Hwc. }
    destruct (w (ls_ctx st)) as [[|]|e0] eqn:Hwc; simpl.
    + destruct (step_action s (ls_ctx st)) as [c1 [[v|e]|e]] eqn:Ha;
        intros H; inversion H; subst; clear H; simpl.
      * right. exists v. auto.
      * exists c1, e. auto.
      * apply (Throws_action _ _ _ c1); auto.
    + intros H; inversion H; subst; clear H. left. split; [|reflexivity]. now exists w.
    + intros H; inversion H; subst; clear H. now apply (Throws_when _ _ _ w).
  - assert (Hopen : gate_open s (ls_ctx st) = true).
    { unfold gate_open. now rewrite Hw. }
    destruct (step_action s (ls_ctx st)) as [c1 [[v|e]|e]] eqn:Ha;
      intros H; inversion H; subst; clear H; simpl.
    + right. now exists v.
    + now exists c1, e.
    + now apply (Throws_action _ _ _ c1).
Qed.

(** What the loop did, read back from how it ended: it ran through a list
    that passes, or it stopped at the first step that failed or threw, the
    steps before it passing. *)
Lemma for_of_inv (todo : list Step) :
  forall (i : nat) (st st' : LoopState) (ctl : Control),
    for_of i todo st = (st', ctl) ->
    match ctl with
    | Continue => Passes (ls_ctx st) todo (ls_ctx st')
    | Return r =>
        exists pre s post c c1 e,
          todo = (pre ++ s :: post)%list /\ Passes (ls_ctx st) pre c /\
          gate_open s c = true /\ step_action s c = (c1, Resolved (Err e)) /\
          r = Err (step_failed s e)
    | Raise e =>
        exists pre s post c,
          todo = (pre ++ s :: post)%list /\ Passes (ls_ctx st) pre c /\ StepThrows s c e
    end.
Proof.
  induction todo as [|s rest IH]; intros i st st' ctl H; simpl in H.
  - inversion H; subst. constructor.
  - destruct (loop_body i s st) as [st1 ctl1] eqn:Hb.
    pose proof (loop_body_inv _ _ _ _ _ Hb) as Hinv.
    destruct ctl1 as [ | r1 | e1].
    + assert (Hhead : forall l c2, Passes (ls_ctx st1) l c2 -> Passes (ls_ctx st) (s :: l) c2).
      { intros l c2 Hrest. destruct Hinv as [[Hoff Hctx] | [v [Hg Ha]]].
        - apply Passes_skip; [exact Hoff|]. now rewrite <- Hctx.
        - eapply Passes_run; eauto. }
      specialize (IH _ _ _ _ H). destruct ctl as [ | r | e].
      * now apply Hhead.
      * destruct IH as (pre & s0 & post & c & c1 & e & -> & Hp & Hrest).
        exists (s :: pre), s0, post, c, c1, e. split; [reflexivity|]. split; auto.
      * destruct IH as (pre & s0 & post & c & -> & Hp & Hrest).
        exists (s :: pre), s0, post, c. split; [reflexivity|]. split; auto.
    + inversion H; subst. destruct Hinv as (c1 & e & Hg & Ha & ->).
      exists [], s, rest, (ls_ctx st), c1, e. repeat split; auto. constructor.
    + inversion H; subst. exists [], s, rest, (ls_ctx st). repeat split; auto. constructor.
Qed.

(** The loop stopped at a failing step: the state it leaves. *)
Lemma for_of_fails (pre post : list Step) (s : Step) (c c1 : StepContext) (e : Value)
    (i : nat) (st : LoopState) :
  Passes (ls_ctx st) pre c ->
  gate_open s c = true ->
  step_action s c = (c1, Resolved (Err e)) ->
  exists st',
    for_of i (pre ++ s :: post) st = (st', Return (Err (step_failed s e))) /\
    ls_ctx st' = c1 /\
    ls_summary st' = (ls_summary st ++ map ok_entry pre ++ [failed_entry s])%list.
Proof.
  intros Hpre Hg Ha.
  destruct (for_of_passes _ _ _ Hpre i st eq_refl) as (st0 & Hrun0 & Hctx0 & Hsum0).
  rewrite for_of_app, Hrun0. simpl.
  rewrite loop_body_gate_open by now rewrite Hctx0.
  unfold run_action. rewrite after_gate_ctx, Hctx0, Ha.
  eexists. split; [reflexivity|]. simpl.
  now rewrite after_gate_summary, Hsum0, <- app_assoc.
Qed.

(** The loop stopped at a throwing step: the state it leaves. *)
Lemma for_of_throws (pre post : list Step) (s : Step) (c : StepContext) (e : Value)
    (i : nat) (st : LoopState) :
  Passes (ls_ctx st) pre c ->
  StepThrows s c e ->
  exists st',
    for_of i (pre ++ s :: post) st = (st', Raise e) /\
    ls_summary st' = (ls_summary st ++ map ok_entry pre)%list.
Proof.
  intros Hpre Hthrow.
  destruct (for_of_passes _ _ _ Hpre i st eq_refl) as (st0 & Hrun0 & Hctx0 & Hsum0).
  rewrite for_of_app, Hrun0. simpl.
  destruct Hthrow as [w Hw Hthrow | c1 Hgate Hact].
  - unfold loop_body. rewrite Hw, Hctx0, Hthrow. eexists. split; [reflexivity|]. exact Hsum0.
  - rewrite loop_body_gate_open by now rewrite Hctx0.
    unfold run_action. rewrite after_gate_ctx, Hctx0, Hact.
    eexists. split; [reflexivity|]. simpl. now rewrite after_gate_summary.
Qed.

End RunnerInversion.

Section RunnerProperties.

Variable plan : Plan.

(** X1: [runPlan] resolves with a success exactly when every step passes
    (is gated off, or runs and resolves with a success Result); the summary
    then lists every step of the plan, in order, with [ok: true], and the
    context left behind is the one the last step left. *)
Theorem runPlan_succeeds_iff_all_pass :
  ((exists v, snd (runPlan plan) = Normal (Ok v)) <->
   (exists c, Passes init_ctx (plan_steps plan) c)) /\
  (forall v, snd (runPlan plan) = Normal (Ok v) ->
     steps v = map ok_entry (plan_steps plan) /\
     length (steps v) = length (plan_steps plan) /\
     Passes init_ctx (plan_steps plan) (ls_ctx (fst (runPlan plan)))).
Proof.
  unfold runPlan.
  destruct (for_of 0 (plan_steps plan) init_state) as [st ctl] eqn:Hrun.
  pose proof (for_of_inv _ _ _ _ _ Hrun) as Hinv.
  destruct ctl as [ | r | e]; simpl in *.
  - destruct (for_of_passes _ _ _ Hinv 0 init_state eq_refl) as (st1 & Hrun1 & _ & Hsum).
    rewrite Hrun in Hrun1. inversion Hrun1; subst st1. simpl in Hsum.
    split.
    + split; intros _; eauto.
    + intros v Hv. inversion Hv; subst v. simpl. rewrite Hsum, length_map. auto.
  - destruct Hinv as (pre & s & post & c & c1 & e & Hsteps & Hpre & Hg & Ha & ->).
    split.
    + split.
      * intros [v Hv]. discriminate.
      * intros [c2 Hall].
        destruct (for_of_passes _ _ _ Hall 0 init_state eq_refl) as (st1 & Hrun1 & _).
        rewrite Hrun in Hrun1. discriminate.
    + intros v Hv. discriminate.
  - split.
    + split.
      * intros [v Hv]. discriminate.
      * intros [c2 Hall].
        destruct (for_of_passes _ _ _ Hall 0 init_state eq_refl) as (st1 & Hrun1 & _).
        rewrite Hrun in Hrun1. discriminate.
    + intros v Hv. discriminate.
Qed.

(** X2: a failure Result of [runPlan] always comes from one step of the
    plan that ran and returned a failing Result, the steps before it
    passing: the error is [{ message: "Step failed: " + s.name, cause }]
    with the cause that step returned, and the summary is the [ok] entries
    of the earlier steps followed by the failed entry of that step. *)
Theorem runPlan_failure_names_a_step (x : Value) :
  snd (runPlan plan) = Normal (Err x) ->
  exists pre s post c c1 e,
    plan_steps plan = (pre ++ s :: post)%list /\
    Passes init_ctx pre c /\
    gate_open s c = true /\
    step_action s c = (c1, Resolved (Err e)) /\
    x = VObject [("message", VStr ("Step failed: " ++ step_name s)); ("cause", e)] /\
    ls_summary (fst (runPlan plan)) = (map ok_entry pre ++ [failed_entry s])%list /\
    ls_ctx (fst (runPlan plan)) = c1.
Proof.
  unfold runPlan.
  destruct (for_of 0 (plan_steps plan) init_state) as [st ctl] eqn:Hrun.
  pose proof (for_of_inv _ _ _ _ _ Hrun) as Hinv.
  destruct ctl as [ | r | e0]; simpl; intros Hx; try discriminate.
  inversion Hx; subst r; clear Hx.
  destruct Hinv as (pre & s & post & c & c1 & e & Hsteps & Hpre & Hg & Ha & Hr).
  inversion Hr; subst x; clear Hr.
  destruct (for_of_fails pre post s c c1 e 0 init_state Hpre Hg Ha) as (st1 & Hrun1 & Hctx & Hsum).
  rewrite <- Hsteps, Hrun in Hrun1. inversion Hrun1; subst st1.
  exists pre, s, post, c, c1, e. repeat split; auto.
Qed.

(** X3: [runPlan] never throws of its own: a value it throws was thrown by
    the predicate or the action of one step of the plan, the steps before
    it passing, and that step has no entry in the summary. *)
Theorem runPlan_throw_comes_from_a_step (e : Value) :
  snd (runPlan plan) = Throw e ->
  exists pre s post c,
    plan_steps plan = (pre ++ s :: post)%list /\
    Passes init_ctx pre c /\
    StepThrows s c e /\
    ls_summary (fst (runPlan plan)) = map ok_entry pre.
Proof.
  unfold runPlan.
  destruct (for_of 0 (plan_steps plan) init_state) as [st ctl] eqn:Hrun.
  pose proof (for_of_inv _ _ _ _ _ Hrun) as Hinv.
  destruct ctl as [ | r | e0]; simpl; intros Hx; try discriminate.
  inversion Hx; subst e0; clear Hx.
  destruct Hinv as (pre & s & post & c & Hsteps & Hpre & Hthrow).
  destruct (for_of_throws pre post s c e 0 init_state Hpre Hthrow) as (st1 & Hrun1 & Hsum).
  rewrite <- Hsteps, Hrun in Hrun1. inversion Hrun1; subst st1.
  exists pre, s, post, c. repeat split; auto.
Qed.

End RunnerProperties.

Section RunnerShape.

Lemma firstn_length_app {A : Type} (a b : list A) : firstn (length a) (a ++ b)%list = a.
Proof. induction a as [|x a IH]; simpl; [now destruct b|now rewrite IH]. Qed.

Lemma ok_entries_ids (l : list Step) : map entry_id (map ok_entry l) = map step_id l.
Proof. induction l as [|s l IH]; simpl; [|rewrite IH]; reflexivity. Qed.

Lemma ok_entries_all_ok (l : list Step) : forallb entry_ok (map ok_entry l) = true.
Proof. induction l as [|s l IH]; simpl; auto. Qed.

Lemma forallb_removelast {A : Type} (f : A -> bool) (l : list A) :
  forallb f l = true -> forallb f (removelast l) = true.
Proof.
  induction l as [|x [|y l] IH]; simpl; auto.
  intros H. apply andb_true_iff in H. destruct H as [Hx Hl].
  rewrite Hx. now apply IH.
Qed.

(** The three ways a run ends, each with the summary it leaves. *)
Lemma runPlan_cases (plan : Plan) :
  (exists c, Passes init_ctx (plan_steps plan) c /\
             snd (runPlan plan) = Normal (Ok {| steps := map ok_entry (plan_steps plan) |}) /\
             ls_summary (fst (runPlan plan)) = map ok_entry (plan_steps plan)) \/
  (exists pre s post e,
     plan_steps plan = (pre ++ s :: post)%list /\
     snd (runPlan plan) = Normal (Err (step_failed s e)) /\
     ls_summary (fst (runPlan plan)) = (map ok_entry pre ++ [failed_entry s])%list) \/
  (exists pre s post e,
     plan_steps plan = (pre ++ s :: post)%list /\
     snd (runPlan plan) = Throw e /\
     ls_summary (fst (runPlan plan)) = map ok_entry pre).
Proof.
  unfold runPlan.
  destruct (for_of 0 (plan_steps plan) init_state) as [st ctl] eqn:Hrun.
  pose proof (for_of_inv _ _ _ _ _ Hrun) as Hinv.
  destruct ctl as [ | r | e0]; simpl.
  - left. destruct (for_of_passes _ _ _ Hinv 0 init_state eq_refl) as (st1 & Hrun1 & _ & Hsum).
    rewrite Hrun in Hrun1. inversion Hrun1; subst st1. simpl in Hsum.
    exists (ls_ctx st). rewrite Hsum. auto.
  - right. left.
    destruct Hinv as (pre & s & post & c & c1 & e & Hsteps & Hpre & Hg & Ha & ->).
    destruct (for_of_fails pre post s c c1 e 0 init_state Hpre Hg Ha) as (st1 & Hrun1 & _ & Hsum).
    rewrite <- Hsteps, Hrun in Hrun1. inversion Hrun1; subst st1.
    exists pre, s, post, e. auto.
  - right. right.
    destruct Hinv as (pre & s & post & c & Hsteps & Hpre & Hthrow).
    destruct (for_of_throws pre post s c e0 0 init_state Hpre Hthrow) as (st1 & Hrun1 & Hsum).
    rewrite <- Hsteps, Hrun in Hrun1. inversion Hrun1; subst st1.
    exists pre, s, post, e0. auto.
Qed.

(** X4: however a run ends, the ids of its summary are the ids of the first
    steps of the plan, in plan order; the summary is never longer than the
    plan; only its last entry can have [ok: false]; and when [runPlan]
    resolves, the Result is a success exactly when every summary entry has
    [ok: true]. *)
Theorem runPlan_summary_invariant (plan : Plan) :
  map entry_id (ls_summary (fst (runPlan plan))) =
    firstn (length (ls_summary (fst (runPlan plan)))) (map step_id (plan_steps plan)) /\
  length (ls_summary (fst (runPlan plan))) <= length (plan_steps plan) /\
  forallb entry_ok (removelast (ls_summary (fst (runPlan plan)))) = true /\
  (forall r, snd (runPlan plan) = Normal r ->
     is_ok r = forallb entry_ok (ls_summary (fst (runPlan plan)))).
Proof.
  destruct (runPlan_cases plan) as
    [(c & _ & Hres & Hsum) | [(pre & s & post & e & Hsteps & Hres & Hsum)
                             | (pre & s & post & e & Hsteps & Hres & Hsum)]];
    rewrite Hsum, Hres.
  - rewrite ok_entries_ids, length_map, <- (length_map step_id), firstn_all.
    repeat split; auto.
    + apply forallb_removelast, ok_entries_all_ok.
    + intros r Hr. inversion Hr; subst r. simpl. now rewrite ok_entries_all_ok.
  - rewrite Hsteps, removelast_last, !map_app, ok_entries_ids, !length_app, !length_map.
    simpl. repeat split.
    + replace (map step_id pre ++ step_id s :: map step_id post)%list
        with ((map step_id pre ++ [step_id s]) ++ map step_id post)%list
        by now rewrite <- app_assoc.
      rewrite <- (firstn_length_app (map step_id pre ++ [step_id s]) (map step_id post)) at 1.
      now rewrite length_app, length_map.
    + lia.
    + apply ok_entries_all_ok.
    + intros r Hr. inversion Hr; subst r. simpl.
      rewrite forallb_app. simpl. now rewrite andb_false_r.
  - rewrite Hsteps, ok_entries_ids, map_app, !length_map, length_app.
    repeat split.
    + rewrite <- (length_map step_id pre). now rewrite firstn_length_app.
    + lia.
    + apply forallb_removelast, ok_entries_all_ok.
    + intros r Hr. discriminate.
Qed.

(** X5: once the run of the first steps [pre] of a plan fails or throws,
    nothing that follows them matters: two plans that share [pre] have the
    same run (completion, summary, context and calls). *)
Theorem runPlan_ignores_steps_after_stop (p p' : Plan) (pre post post' : list Step) :
  plan_steps p = (pre ++ post)%list ->
  plan_steps p' = (pre ++ post')%list ->
  (forall v, snd (runPlan (with_steps p pre)) <> Normal (Ok v)) ->
  runPlan p = runPlan p'.
Proof.
  intros Hp Hp' Hstop. unfold runPlan in *. rewrite Hp, Hp', !for_of_app. simpl in Hstop.
  destruct (for_of 0 pre init_state) as [st [ | r | e]]; try reflexivity.
  exfalso. apply (Hstop {| steps := ls_summary st |}). reflexivity.
Qed.

End RunnerShape.

Section CallOrder.

Lemma action_indices_app (a b : list Event) :
  action_indices (a ++ b) = (action_indices a ++ action_indices b)%list.
Proof.
  induction a as [|[j|j|m x|m x] a IH]; simpl; rewrite ?IH; reflexivity.
Qed.

Lemma when_indices_app (a b : list Event) :
  when_indices (a ++ b) = (when_indices a ++ when_indices b)%list.
Proof.
  induction a as [|[j|j|m x|m x] a IH]; simpl; rewrite ?IH; reflexivity.
Qed.

(** One iteration calls the predicate of its step, if it has one, and then
    possibly its action. *)
Lemma loop_body_calls (i : nat) (s : Step) (st st' : LoopState) (ctl : Control) :
  loop_body i s st = (st', ctl) ->
  exists evs,
    ls_trace st' = (ls_trace st ++ evs)%list /\
    (evs = [EvWhen i] \/ evs = [EvAction i] \/ evs = [EvWhen i; EvAction i]).
Proof.
  unfold loop_body. destruct (step_when s) as [w|].
  - destruct (w (ls_ctx st)) as [[|]|e]; intros H.
    + apply run_action_extends in H. destruct H as (Ht & _).
      exists [EvWhen i; EvAction i]. simpl in Ht. rewrite Ht, <- app_assoc. auto.
    + inversion H; subst. exists [EvWhen i]. auto.
    + inversion H; subst. exists [EvWhen i]. auto.
  - intros H. apply run_action_extends in H. destruct H as (Ht & _).
    exists [EvAction i]. auto.
Qed.

Lemma sorted_cons_range (i hi : nat) (l : list nat) :
  StronglySorted lt l -> Forall (in_range (S i) hi) l -> StronglySorted lt (i :: l).
Proof.
  intros Hs Hr. constructor; [exact Hs|].
  eapply Forall_impl; [|exact Hr]. unfold in_range. intros j Hj. lia.
Qed.

Lemma in_range_weaken (lo hi lo' hi' : nat) (l : list nat) :
  lo' <= lo -> hi <= hi' -> Forall (in_range lo hi) l -> Forall (in_range lo' hi') l.
Proof.
  intros Hlo Hhi. apply Forall_impl. unfold in_range. intros j Hj. lia.
Qed.

(** The calls the loop makes, by position: strictly increasing, within the
    positions it walks over. *)
Lemma for_of_calls (todo : list Step) :
  forall (i : nat) (st st' : LoopState) (ctl : Control),
    for_of i todo st = (st', ctl) ->
    exists evs,
      ls_trace st' = (ls_trace st ++ evs)%list /\
      StronglySorted lt (action_indices evs) /\
      StronglySorted lt (when_indices evs) /\
      Forall (in_range i (i + length todo)) (action_indices evs) /\
      Forall (in_range i (i + length todo)) (when_indices evs).
Proof.
  induction todo as [|s rest IH]; intros i st st' ctl H; simpl in H.
  - inversion H; subst. exists []. rewrite app_nil_r. simpl. repeat split; constructor.
  - destruct (loop_body i s st) as [st1 ctl1] eqn:Hb.
    destruct (loop_body_calls _ _ _ _ _ Hb) as (evs1 & Ht1 & Hshape).
    assert (Hone : exists evs2,
               ls_trace st' = (ls_trace st1 ++ evs2)%list /\
               StronglySorted lt (action_indices evs2) /\
               StronglySorted lt (when_indices evs2) /\
               Forall (in_range (S i) (S i + length rest)) (action_indices evs2) /\
               Forall (in_range (S i) (S i + length rest)) (when_indices evs2)).
    { destruct ctl1 as [ | r | e].
      - exact (IH _ _ _ _ H).
      - inversion H; subst. exists []. rewrite app_nil_r. simpl. repeat split; constructor.
      - inversion H; subst. exists []. rewrite app_nil_r. simpl. repeat split; constructor. }
    destruct Hone as (evs2 & Ht2 & Hsa & Hsw & Hra & Hrw).
    exists (evs1 ++ evs2)%list. rewrite Ht2, Ht1, <- app_assoc.
    rewrite action_indices_app, when_indices_app.
    assert (Hra' : Forall (in_range i (i + length (s :: rest))) (action_indices evs2)).
    { eapply in_range_weaken; [| |exact Hra]; simpl; lia. }
    assert (Hrw' : Forall (in_range i (i + length (s :: rest))) (when_indices evs2)).
    { eapply in_range_weaken; [| |exact Hrw]; simpl; lia. }
    assert (Hi : in_range i (i + length (s :: rest)) i) by (unfold in_range; simpl; lia).
    split; [reflexivity|].
    destruct Hshape as [-> | [-> | ->]]; simpl; repeat split; auto;
      try (eapply sorted_cons_range; eassumption).
Qed.

(** The state [runPlan] leaves is the state the loop leaves. *)
Lemma runPlan_fst (plan : Plan) :
  fst (runPlan plan) = fst (for_of 0 (plan_steps plan) init_state).
Proof.
  unfold runPlan. now destruct (for_of 0 (plan_steps plan) init_state) as [st [ | r | e]].
Qed.

(** X6: in every run the actions are called in plan order and each at most
    once (the positions of the called actions increase strictly), the same
    holds for the predicates, and only steps of the plan are called. *)
Theorem runPlan_calls_in_plan_order (plan : Plan) :
  StronglySorted lt (action_indices (ls_trace (fst (runPlan plan)))) /\
  StronglySorted lt (when_indices (ls_trace (fst (runPlan plan)))) /\
  (forall j, In (EvAction j) (ls_trace (fst (runPlan plan))) \/
             In (EvWhen j) (ls_trace (fst (runPlan plan))) ->
             j < length (plan_steps plan)).
Proof.
  rewrite runPlan_fst.
  destruct (for_of 0 (plan_steps plan) init_state) as [st ctl] eqn:Hrun.
  destruct (for_of_calls _ _ _ _ _ Hrun) as (evs & Ht & Hsa & Hsw & _).
  destruct (for_of_extends _ _ _ _ _ Hrun) as (evs' & _ & Ht' & Hin & _).
  simpl in *. rewrite Ht' in Ht. subst evs'. rewrite Ht'.
  split; [exact Hsa|]. split; [exact Hsw|].
  intros j [Hj | Hj]; rewrite Forall_forall in Hin; apply Hin in Hj; simpl in Hj; lia.
Qed.

End CallOrder.

Section GatedSteps.

(** How an iteration ends and the context it leaves depend on the context
    it starts in only, not on the position, the summary or the log. *)
Lemma loop_body_ctx_only (i j : nat) (s : Step) (st st' : LoopState) :
  ls_ctx st = ls_ctx st' ->
  snd (loop_body i s st) = snd (loop_body j s st') /\
  ls_ctx (fst (loop_body i s st)) = ls_ctx (fst (loop_body j s st')).
Proof.
  intros Hc. unfold loop_body, run_action. simpl. rewrite <- Hc.
  destruct (step_when s) as [w|].
  - destruct (w (ls_ctx st)) as [[|]|e]; simpl; auto.
    destruct (step_action s (ls_ctx st)) as [c1 [[v|e]|e]]; simpl; auto.
  - destruct (step_action s (ls_ctx st)) as [c1 [[v|e]|e]]; simpl; auto.
Qed.

Lemma for_of_ctx_only (todo : list Step) :
  forall (i j : nat) (st st' : LoopState),
    ls_ctx st = ls_ctx st' ->
    snd (for_of i todo st) = snd (for_of j todo st') /\
    ls_ctx (fst (for_of i todo st)) = ls_ctx (fst (for_of j todo st')).
Proof.
  induction todo as [|s rest IH]; intros i j st st' Hc; simpl; [auto|].
  destruct (loop_body_ctx_only i j s st st' Hc) as [Hctl Hctx].
  destruct (loop_body i s st) as [st1 ctl1], (loop_body j s st') as [st1' ctl1'].
  simpl in Hctl, Hctx. subst ctl1'.
  destruct ctl1 as [ | r | e]; simpl; auto.
Qed.

(** The completion of [runPlan], from how the loop ended. *)
Lemma runPlan_snd (plan : Plan) :
  snd (runPlan plan) =
  match snd (for_of 0 (plan_steps plan) init_state) with
  | Continue =>
      Normal (Ok {| steps := ls_summary (fst (for_of 0 (plan_steps plan) init_state)) |})
  | Return r => Normal r
  | Raise e => Throw e
  end.
Proof.
  unfold runPlan. now destruct (for_of 0 (plan_steps plan) init_state) as [st [ | r | e]].
Qed.

(** X7: a step that is gated off when the run reaches it changes nothing
    but the summary: the plan with the step and the plan without it leave
    the same context, fail with the same error, throw the same value, and
    succeed together. *)
Theorem runPlan_gated_step_is_inert
    (p p' : Plan) (pre post : list Step) (s : Step) (c : StepContext) :
  plan_steps p = (pre ++ s :: post)%list ->
  plan_steps p' = (pre ++ post)%list ->
  Passes init_ctx pre c ->
  gated_off s c ->
  ls_ctx (fst (runPlan p)) = ls_ctx (fst (runPlan p')) /\
  (forall x, snd (runPlan p) = Normal (Err x) <-> snd (runPlan p') = Normal (Err x)) /\
  (forall e, snd (runPlan p) = Throw e <-> snd (runPlan p') = Throw e) /\
  ((exists v, snd (runPlan p) = Normal (Ok v)) <-> (exists v, snd (runPlan p') = Normal (Ok v))).
Proof.
  intros Hp Hp' Hpre (w & Hw & Hoff).
  destruct (for_of_passes _ _ _ Hpre 0 init_state eq_refl) as (st0 & Hrun0 & Hctx0 & _).
  pose (st1 := push (ok_entry s) (log (EvWhen (length pre)) st0)).
  assert (Hfor : for_of 0 (pre ++ s :: post) init_state = for_of (S (length pre)) post st1).
  { rewrite for_of_app, Hrun0. simpl. unfold loop_body. now rewrite Hw, Hctx0, Hoff. }
  assert (Hfor' : for_of 0 (pre ++ post) init_state = for_of (length pre) post st0).
  { now rewrite for_of_app, Hrun0. }
  destruct (for_of_ctx_only post (S (length pre)) (length pre) st1 st0 eq_refl) as [Hctl Hctx].
  rewrite !runPlan_fst, !runPlan_snd, Hp, Hp', Hfor, Hfor', Hctl, Hctx.
  split; [reflexivity|].
  destruct (snd (for_of (length pre) post st0)) as [ | r | e0].
  - repeat split; intros; try discriminate; eauto.
  - repeat split; intros H; auto; destruct H; discriminate.
  - repeat split; intros H; auto; destruct H; discriminate.
Qed.

End GatedSteps.

(** ** Further properties of the orchestrator *)

(** Split on what every telemetry call and every message computation in
    the goal does. *)
Ltac split_run :=
  repeat match goal with
         | |- context [tel_info ?t ?m ?a] =>
             let E := fresh "Einfo" in destruct (tel_info t m a) eqn:E; simpl
         | |- context [tel_error ?t ?m ?a] =>
             let E := fresh "Eerror" in destruct (tel_error t m a) eqn:E; simpl
         | |- context [exception_message ?e] =>
             let E := fresh "Emsg" in destruct (exception_message e) eqn:E; simpl
         end.

Section OrchestratorAnySink.

Variable plan : Plan.

(** X8: whatever the sink does, [run] resolves with a success only when
    the runner did, and with the runner's value: neither a failure nor an
    exception, of a step or of the sink, is ever turned into a success. *)
Theorem run_success_only_from_runner_success (t : option Telemetry) (v : RunValue) :
  snd (run_once t plan) = Normal (Ok v) ->
  snd (runPlan plan) = Normal (Ok v).
Proof.
  unfold_run. destruct (runPlan plan) as [st [[v0|x]|x]]; destruct t as [tel|]; simpl;
    split_run; intros H; inversion H; reflexivity.
Qed.


(** X10: when the sink's [info] throws [e] on the start event, no step of
    the plan runs.  If the message of [e] can be computed, the log is the
    start call followed by the exception call carrying it, and [run]
    resolves with the failure wrapping [e] unless that second call throws
    too; if computing the message throws, the log is the start call alone
    and [run] rejects with what the computation threw. *)
Theorem run_start_failure_skips_the_plan (tel : Telemetry) (e : Value) :
  tel_info tel "orchestrator.run.start"
    [("planId", VStr (plan_id plan)); ("name", VStr (plan_name plan))] = Some e ->
  step_calls (fst (run_once (Some tel) plan)) = [] /\
  (forall m, exception_message e = Normal m ->
     fst (run_once (Some tel) plan) =
       [EvInfo "orchestrator.run.start"
          [("planId", VStr (plan_id plan)); ("name", VStr (plan_name plan))];
        EvError "orchestrator.run.exception" [("error", m)]] /\
     snd (run_once (Some tel) plan) =
       match tel_error tel "orchestrator.run.exception" [("error", m)] with
       | None => Normal (Err e)
       | Some e' => Throw e'
       end) /\
  (forall te, exception_message e = Throw te ->
     fst (run_once (Some tel) plan) =
       [EvInfo "orchestrator.run.start"
          [("planId", VStr (plan_id plan)); ("name", VStr (plan_name plan))]] /\
     snd (run_once (Some tel) plan) = Throw te).
Proof.
  intros Hstart. unfold_run. simpl. rewrite Hstart. simpl.
  destruct (exception_message e) as [m|te] eqn:Hm; simpl.
  - split; [now destruct (tel_error tel _ _)|]. split.
    + intros m' Hm'. inversion Hm'; subst m'.
      destruct (tel_error tel _ _); simpl; auto.
    + intros te Hte. discriminate.
  - split; [reflexivity|]. split.
    + intros m Hm'. discriminate.
    + intros te' Hte. inversion Hte; subst. auto.
Qed.

(** X11: when the start call returns normally (or there is no sink), the
    step calls of [run] are exactly those of one [runPlan], whatever the
    later telemetry calls do: no step is run twice and none is retried. *)
Theorem run_executes_the_plan_once (t : option Telemetry) :
  start_returns t plan ->
  step_calls (fst (run_once t plan)) = ls_trace (fst (runPlan plan)).
Proof.
  pose proof (runPlan_step_events plan) as Hsteps.
  apply step_calls_of_steps in Hsteps.
  unfold start_returns. unfold_run. destruct t as [tel|]; simpl.
  - intros ->. simpl. destruct (runPlan plan) as [st [[v0|x]|x]]; simpl in *;
      split_run; unfold step_calls in *; rewrite ?filter_app, Hsteps; simpl;
      now rewrite ?app_nil_r.
  - intros _. destruct (runPlan plan) as [st [[v0|x]|x]]; simpl in *; exact Hsteps.
Qed.

(** X20: when the runner succeeded but the sink's [info] throws [e'] on the
    ok event, or the runner failed but the sink's [error] throws [e'] on
    the error event, the runner's Result is lost: [run] goes through its
    catch block with [e'], so it rejects if computing the message of [e']
    throws or if the exception call throws, and otherwise resolves with
    the failure wrapping [e']. *)
Theorem run_closing_call_failure_replaces_result (tel : Telemetry) (e' : Value) :
  start_returns (Some tel) plan ->
  (exists v, snd (runPlan plan) = Normal (Ok v) /\
             tel_info tel "orchestrator.run.ok" [("steps", js_length (steps v))] = Some e') \/
  (exists x, snd (runPlan plan) = Normal (Err x) /\
             tel_error tel "orchestrator.run.error" [("error", x)] = Some e') ->
  snd (run_once (Some tel) plan) =
    match exception_message e' with
    | Throw te => Throw te
    | Normal m =>
        match tel_error tel "orchestrator.run.exception" [("error", m)] with
        | None => Normal (Err e')
        | Some e'' => Throw e''
        end
    end.
Proof.
  unfold start_returns. intros Hstart Hclose. unfold_run. simpl. rewrite Hstart. simpl.
  destruct (runPlan plan) as [st c]. simpl in Hclose.
  destruct Hclose as [(v & -> & Hthrow) | (x & -> & Hthrow)]; simpl; rewrite Hthrow; simpl;
    destruct (exception_message e') as [m|te]; simpl; try reflexivity;
    destruct (tel_error tel "orchestrator.run.exception" _); reflexivity.
Qed.

End OrchestratorAnySink.

Section OrchestratorQuietSink.

Variable plan : Plan.
Variable tel : Telemetry.
Hypothesis tel_quiet : quiet (Some tel).

Lemma errorCalls_of_steps (tr : list Event) :
  Forall (fun ev => is_step_event ev = true) tr -> errorCalls tr = [] /\ infoCalls tr = [].
Proof.
  unfold errorCalls, infoCalls. induction 1 as [|ev tr Hev _ [IHe IHi]]; simpl; [auto|].
  rewrite IHe, IHi. now destruct ev.
Qed.

(** X12: with a sink whose calls return normally, when [run] resolves,
    [error] was called once if the Result is a failure and not at all if
    it is a success, and [info] twice on success (start, ok) and once
    otherwise (start); when [run] rejects, [error] was not called and
    [info] once. *)
Theorem run_telemetry_call_counts :
  (forall r, snd (run_once (Some tel) plan) = Normal r ->
     length (errorCalls (fst (run_once (Some tel) plan))) = (if is_ok r then 0 else 1) /\
     length (infoCalls (fst (run_once (Some tel) plan))) = (if is_ok r then 2 else 1)) /\
  (forall te, snd (run_once (Some tel) plan) = Throw te ->
     length (errorCalls (fst (run_once (Some tel) plan))) = 0 /\
     length (infoCalls (fst (run_once (Some tel) plan))) = 1).
Proof.
  rewrite (run_quiet plan (Some tel) tel_quiet). simpl.
  destruct (errorCalls_of_steps _ (runPlan_step_events plan)) as [He Hi].
  unfold errorCalls, infoCalls, closing, outcome, final_event in *.
  rewrite !filter_app, He, Hi.
  destruct (snd (runPlan plan)) as [[v|e]|e]; simpl.
  - split; intros r H; inversion H; subst; auto.
  - split; intros r H; inversion H; subst; auto.
  - destruct (exception_message e) as [m|te]; simpl;
      split; intros r H; inversion H; subst; auto.
Qed.

(** X13: with a sink whose calls return normally, the closing event tells
    the outcome: on success the ok event carries the number of steps of
    the plan (skipped ones included), on a runner failure the error event
    carries the runner's error object itself, on an exception whose
    message can be computed the exception event carries that message, and
    when computing the message throws there is no closing event. *)
Theorem run_closing_event_reports_outcome :
  (forall v, snd (runPlan plan) = Normal (Ok v) ->
     fst (run_once (Some tel) plan) =
       (start_event plan :: ls_trace (fst (runPlan plan)) ++
        [EvInfo "orchestrator.run.ok" [("steps", js_length (plan_steps plan))]])%list) /\
  (forall x, snd (runPlan plan) = Normal (Err x) ->
     fst (run_once (Some tel) plan) =
       (start_event plan :: ls_trace (fst (runPlan plan)) ++
        [EvError "orchestrator.run.error" [("error", x)]])%list) /\
  (forall e m, snd (runPlan plan) = Throw e -> exception_message e = Normal m ->
     fst (run_once (Some tel) plan) =
       (start_event plan :: ls_trace (fst (runPlan plan)) ++
        [EvError "orchestrator.run.exception" [("error", m)]])%list) /\
  (forall e te, snd (runPlan plan) = Throw e -> exception_message e = Throw te ->
     fst (run_once (Some tel) plan) = start_event plan :: ls_trace (fst (runPlan plan))).
Proof.
  rewrite (run_quiet plan (Some tel) tel_quiet). unfold closing, final_event. simpl.
  split; [|split; [|split]].
  - intros v Hv. rewrite Hv.
    destruct (runPlan_cases plan) as
      [(c & _ & Hres & _) | [(pre & s & post & e & _ & Hres & _)
                            | (pre & s & post & e & _ & Hres & _)]];
      rewrite Hres in Hv; inversion Hv; subst v. simpl.
    unfold js_length. now rewrite length_map.
  - intros x Hx. now rewrite Hx.
  - intros e m He Hm. now rewrite He, Hm.
  - intros e te He Hm. rewrite He, Hm. now rewrite app_nil_r.
Qed.

End OrchestratorQuietSink.

Section ExceptionMessage.

Lemma string_of_int_nonempty (d : Decimal.signed_int) : NilZero.string_of_int d <> "".
Proof.
  destruct d as [d|d]; simpl; [|discriminate].
  unfold NilZero.string_of_uint. destruct d; simpl; discriminate.
Qed.

(** Only the empty string converts to the empty string. *)
Lemma js_String_empty (e : Value) : js_String e = Normal "" -> e = VStr "".
Proof.
  destruct e as [ | | [|] | n safe | s | m | m | props]; simpl; try discriminate.
  - intros H. inversion H as [H']. now apply string_of_int_nonempty in H'.
  - intros H. now inversion H.
  - destruct (String.eqb m ""); discriminate.
  - destruct (String.eqb m ""); discriminate.
  - destruct (has_own "toString" props); discriminate.
Qed.

(** The conversion throws for objects with an own [toString] only. *)
Lemma js_String_throws (e te : Value) :
  js_String e = Throw te <->
  te = cannot_convert /\ exists props, e = VObject props /\ has_own "toString" props = true.
Proof.
  split.
  - destruct e as [ | | [|] | n safe | s | m | m | props]; simpl; try discriminate.
    destruct (has_own "toString" props) eqn:Hown; [|discriminate].
    intros H. inversion H. eauto.
  - intros (-> & props & -> & Hown). simpl. now rewrite Hown.
Qed.

(** X14: computing the message logged with the exception event,
    [e?.message || String(e)], throws exactly when [e] is an object with a
    falsy [message] and an own [toString] property (which is data, not a
    function), and it then throws the TypeError of the conversion; when it
    returns, the message is falsy for one thrown value only, the empty
    string. *)
Theorem exception_message_cases (e : Value) :
  (forall te, exception_message e = Throw te <->
     te = cannot_convert /\
     js_truthy (js_opt_get e "message") = false /\
     exists props, e = VObject props /\ has_own "toString" props = true) /\
  (forall m, exception_message e = Normal m -> (js_truthy m = false <-> e = VStr "")).
Proof.
  unfold exception_message. split.
  - intros te. destruct (js_truthy (js_opt_get e "message")) eqn:Htruthy.
    + split; [discriminate|]. intros (_ & H & _). discriminate.
    + destruct (js_String e) as [str|te'] eqn:Hstr.
      * split; [discriminate|]. intros (Hte & _ & Hobj).
        assert (Hthrow : js_String e = Throw te) by (apply js_String_throws; auto).
        congruence.
      * apply js_String_throws in Hstr. destruct Hstr as (-> & Hobj).
        split.
        -- intros H. inversion H. auto.
        -- intros (-> & _). reflexivity.
  - intros m. destruct (js_truthy (js_opt_get e "message")) eqn:Htruthy.
    + intros H. inversion H; subst m. split; [congruence|].
      intros ->. discriminate.
    + destruct (js_String e) as [str|te'] eqn:Hstr; [|discriminate].
      intros H. inversion H; subst m. simpl. split.
      * intros Hempty. apply negb_false_iff, String.eqb_eq in Hempty. subst str.
        now apply js_String_empty.
      * intros ->. simpl in Hstr. now inversion Hstr.
Qed.

End ExceptionMessage.

(** X15: an orchestrator given [NoopTelemetry] calls the same steps as one
    given no telemetry; it resolves with the same Result, and never
    rejects, provided that the message of a value thrown by the runner can
    be computed; when computing it throws, the orchestrator given
    [NoopTelemetry] rejects while the one given no telemetry resolves with
    the failure wrapping the thrown value. *)
Theorem run_with_NoopTelemetry (plan : Plan) :
  step_calls (fst (run_once (Some NoopTelemetry) plan)) = fst (run_once None plan) /\
  ((forall e, snd (runPlan plan) = Throw e -> exists m, exception_message e = Normal m) ->
   snd (run_once (Some NoopTelemetry) plan) = snd (run_once None plan) /\
   exists r, snd (run_once (Some NoopTelemetry) plan) = Normal r) /\
  (forall e te, snd (runPlan plan) = Throw e -> exception_message e = Throw te ->
     snd (run_once (Some NoopTelemetry) plan) = Throw te /\
     snd (run_once None plan) = Normal (Err e)).
Proof.
  assert (Hq : quiet (Some NoopTelemetry)) by (split; reflexivity).
  split; [|split].
  - rewrite (run_quiet_step_calls plan _ Hq), (run_quiet plan None I). simpl.
    now rewrite app_nil_r.
  - intros Hmsg. rewrite (run_quiet plan _ Hq), (run_quiet plan None I). simpl.
    destruct (snd (runPlan plan)) as [r|e]; simpl; [eauto|].
    destruct (Hmsg e eq_refl) as [m ->]. eauto.
  - intros e te Hrun Hmsg. rewrite (run_quiet plan _ Hq), (run_quiet plan None I), Hrun.
    simpl. now rewrite Hmsg.
Qed.

(** ** Further properties of makePlan *)

Section MakePlanProperties.

Variable name : string.

Lemma normalize_as_spec (l : list Step) :
  forall k, normalize name k (map as_spec l) = l.
Proof.
  induction l as [|[id nm act w] l IH]; intros k; simpl; [reflexivity|].
  now rewrite IH.
Qed.

Lemma normalize_app (a b : list StepSpec) :
  forall k, normalize name k (a ++ b) =
            (normalize name k a ++ normalize name (k + length a) b)%list.
Proof.
  induction a as [|sp a IH]; intros k; simpl.
  - now rewrite Nat.add_0_r.
  - rewrite IH. now replace (S k + length a) with (k + S (length a)) by lia.
Qed.

Lemma normalize_explicit_ids (l : list StepSpec) :
  Forall (fun sp => exists id, spec_id sp = IdString id) l ->
  forall k k', normalize name k l = normalize name k' l.
Proof.
  induction 1 as [|sp l [id Hid] _ IH]; intros k k'; simpl; [reflexivity|].
  now rewrite Hid, (IH (S k) (S k')).
Qed.

(** X16: handed steps that already carry ids (its [Step[]] input), whatever
    the plan name, [makePlan] returns exactly those steps: explicit ids
    always win, so re-making a plan from the steps of a plan changes
    nothing. *)
Theorem makePlan_keeps_steps_with_ids (l : list Step) (specs : list StepSpec) :
  plan_steps (makePlan name (map as_spec l)) = l /\
  makePlan name (map as_spec (plan_steps (makePlan name specs))) = makePlan name specs.
Proof.
  split.
  - apply normalize_as_spec.
  - unfold makePlan. simpl. now rewrite normalize_as_spec.
Qed.

(** X17: the steps made from the first elements of the input do not depend
    on what follows them; the steps made from [b] placed after [a] get the
    generated ids of the positions after [length a], and when every
    element of [b] carries an id they are the steps [makePlan] makes from
    [b] alone. *)
Theorem makePlan_append (a b : list StepSpec) :
  firstn (length a) (plan_steps (makePlan name (a ++ b))) = plan_steps (makePlan name a) /\
  (forall i sp, nth_error b i = Some sp -> nullish (spec_id sp) ->
     exists st, nth_error (plan_steps (makePlan name (a ++ b))) (length a + i) = Some st /\
                step_id st = name ++ "-s" ++ nat_to_string (length a + i + 1)) /\
  (Forall (fun sp => exists id, spec_id sp = IdString id) b ->
     plan_steps (makePlan name (a ++ b)) =
     (plan_steps (makePlan name a) ++ plan_steps (makePlan name b))%list).
Proof.
  simpl. rewrite normalize_app. simpl. split; [|split].
  - rewrite <- (normalize_length name a 0). apply firstn_length_app.
  - intros i sp Hsp Hnull. eexists. split.
    + rewrite nth_error_app2 by (rewrite normalize_length; lia).
      rewrite normalize_length. replace (length a + i - length a) with i by lia.
      exact (normalize_nth name b (length a) i sp Hsp).
    + simpl. now destruct Hnull as [-> | ->].
  - intros Hb. now rewrite (normalize_explicit_ids b Hb (length a) 0).
Qed.

(** X18: [makePlan] does not check ids: when one element lacks an id and
    another carries, as its explicit id, the id generated for the first,
    the plan has two steps with the same id. *)
Theorem makePlan_id_collision (specs : list StepSpec) (i j : nat) (sp_i sp_j : StepSpec) :
  i <> j ->
  nth_error specs i = Some sp_i ->
  nullish (spec_id sp_i) ->
  nth_error specs j = Some sp_j ->
  spec_id sp_j = IdString (name ++ "-s" ++ nat_to_string (i + 1)) ->
  ~ NoDup (map step_id (plan_steps (makePlan name specs))).
Proof.
  intros Hij Hi Hnull Hj Hid Hnd. apply Hij.
  rewrite NoDup_nth_error in Hnd. apply Hnd.
  - rewrite length_map. simpl. rewrite normalize_length.
    apply nth_error_Some. congruence.
  - simpl. rewrite !nth_error_map.
    rewrite (normalize_nth name specs 0 i sp_i Hi), (normalize_nth name specs 0 j sp_j Hj).
    simpl. rewrite Hid. now destruct Hnull as [-> | ->].
Qed.

(** X19: for a plan made from elements that all lack an id, the entries of
    the summary of any run (successful, failed or interrupted by an
    exception) carry pairwise distinct ids, and the summary of a successful
    run carries the ids [name-s1 ... name-sN] in order. *)
Theorem makePlan_then_runPlan_ids (specs : list StepSpec) :
  Forall (fun sp => nullish (spec_id sp)) specs ->
  NoDup (map entry_id (ls_summary (fst (runPlan (makePlan name specs))))) /\
  (forall v, snd (runPlan (makePlan name specs)) = Normal (Ok v) ->
     map entry_id (steps v) =
     map (fun i => name ++ "-s" ++ nat_to_string (i + 1)) (seq 0 (length specs))).
Proof.
  intros Hall.
  assert (Hids : map step_id (plan_steps (makePlan name specs)) =
                 map (auto_id name) (seq 0 (length specs))).
  { exact (normalize_nullish_ids name specs Hall 0). }
  assert (Hnd : NoDup (map step_id (plan_steps (makePlan name specs)))).
  { rewrite Hids. apply auto_ids_NoDup. }
  destruct (runPlan_cases (makePlan name specs)) as
    [(c & _ & Hres & Hsum) | [(pre & s & post & e & Hsteps & Hres & Hsum)
                             | (pre & s & post & e & Hsteps & Hres & Hsum)]];
    rewrite Hsum, Hres.
  - rewrite ok_entries_ids. split; [exact Hnd|].
    intros v Hv. inversion Hv; subst v. simpl. now rewrite ok_entries_ids.
  - rewrite Hsteps, map_app in Hnd. simpl in Hnd.
    split; [|intros v Hv; discriminate].
    rewrite map_app, ok_entries_ids. simpl.
    replace (map step_id pre ++ step_id s :: map step_id post)%list
      with ((map step_id pre ++ [step_id s]) ++ map step_id post)%list in Hnd
      by now rewrite <- app_assoc.
    now apply NoDup_app_remove_r in Hnd.
  - rewrite Hsteps, map_app in Hnd.
    split; [|intros v Hv; discriminate].
    rewrite ok_entries_ids. now apply NoDup_app_remove_r in Hnd.
Qed.

End MakePlanProperties.

(** ** The further properties at the plans of the test suite *)

Section FurtherWitnesses.

Import Fixtures.

Lemma runPlan_failure_names_a_step_witness :
  exists pre s post c c1 e,
    plan_steps plan_fail_second = (pre ++ s :: post)%list /\
    Passes init_ctx pre c /\
    gate_open s c = true /\
    step_action s c = (c1, Resolved (Err e)) /\
    VObject [("message", VStr "Step failed: b"); ("cause", VError "x")] =
      VObject [("message", VStr ("Step failed: " ++ step_name s)); ("cause", e)] /\
    ls_summary (fst (runPlan plan_fail_second)) = (map ok_entry pre ++ [failed_entry s])%list /\
    ls_ctx (fst (runPlan plan_fail_second)) = c1.
Proof.
  apply (runPlan_failure_names_a_step plan_fail_second). reflexivity.
Defined.

Lemma runPlan_throw_comes_from_a_step_witness :
  exists pre s post c,
    plan_steps (plan_throw (VStr "boom")) = (pre ++ s :: post)%list /\
    Passes init_ctx pre c /\
    StepThrows s c (VStr "boom") /\
    ls_summary (fst (runPlan (plan_throw (VStr "boom")))) = map ok_entry pre.
Proof.
  apply (runPlan_throw_comes_from_a_step (plan_throw (VStr "boom"))). reflexivity.
Defined.

Lemma runPlan_ignores_steps_after_stop_witness :
  runPlan plan_fail_second = runPlan (with_steps plan_fail_second [step_a; step_b_fails]).
Proof.
  apply (runPlan_ignores_steps_after_stop plan_fail_second
           (with_steps plan_fail_second [step_a; step_b_fails])
           [step_a; step_b_fails] [step_c] []).
  - reflexivity.
  - reflexivity.
  - intros v. simpl. discriminate.
Defined.

Lemma runPlan_gated_step_is_inert_witness :
  ls_ctx (fst (runPlan plan_skip_middle)) =
    ls_ctx (fst (runPlan (with_steps plan_skip_middle [step_a; step_c]))) /\
  ((exists v, snd (runPlan plan_skip_middle) = Normal (Ok v)) <->
   (exists v, snd (runPlan (with_steps plan_skip_middle [step_a; step_c])) = Normal (Ok v))).
Proof.
  assert (Hp : Passes init_ctx [step_a] ctx_seen).
  { eapply Passes_run; [reflexivity | reflexivity | constructor]. }
  assert (Hoff : gated_off step_b_gated ctx_seen).
  { exists never. split; reflexivity. }
  destruct (runPlan_gated_step_is_inert plan_skip_middle
              (with_steps plan_skip_middle [step_a; step_c])
              [step_a] [step_c] step_b_gated ctx_seen eq_refl eq_refl Hp Hoff)
    as (Hctx & _ & _ & Hok).
  split; [exact Hctx | exact Hok].
Defined.

Lemma run_success_only_from_runner_success_witness :
  snd (runPlan plan_two_ok) =
    Normal (Ok {| steps := [{| entry_id := "p-s1"; entry_ok := true |};
                            {| entry_id := "p-s2"; entry_ok := true |}] |}).
Proof.
  apply (run_success_only_from_runner_success plan_two_ok
           (Some (tel_error_throws_on "orchestrator.run.error" (VStr "sink down")))).
  reflexivity.
Defined.


Lemma run_start_failure_skips_the_plan_witness :
  step_calls (fst (run_once (Some (tel_info_throws_on "orchestrator.run.start" (VStr "sink down")))
                     plan_two_ok)) = [] /\
  snd (run_once (Some (tel_info_throws_on "orchestrator.run.start" (VStr "sink down")))
         plan_two_ok) = Normal (Err (VStr "sink down")) /\
  run_once (Some (tel_info_throws_on "orchestrator.run.start" unprintable)) plan_two_ok =
    ([EvInfo "orchestrator.run.start" [("planId", VStr "p"); ("name", VStr "p")]],
     Throw cannot_convert).
Proof.
  destruct (run_start_failure_skips_the_plan plan_two_ok
              (tel_info_throws_on "orchestrator.run.start" (VStr "sink down"))
              (VStr "sink down") eq_refl) as (Hcalls & Hmsg & _).
  destruct (Hmsg (VStr "sink down") eq_refl) as (_ & Hres).
  destruct (run_start_failure_skips_the_plan plan_two_ok
              (tel_info_throws_on "orchestrator.run.start" unprintable)
              unprintable eq_refl) as (_ & _ & Hthrow).
  destruct (Hthrow cannot_convert eq_refl) as (Hlog & Hrej).
  split; [exact Hcalls|]. split; [exact Hres|].
  rewrite (surjective_pairing (run_once _ _)), Hlog, Hrej. reflexivity.
Defined.

Lemma run_executes_the_plan_once_witness :
  step_calls (fst (run_once (Some (tel_info_throws_on "orchestrator.run.ok" (VStr "sink down")))
                     plan_two_ok)) = [EvAction 0; EvAction 1].
Proof.
  apply (run_executes_the_plan_once plan_two_ok
           (Some (tel_info_throws_on "orchestrator.run.ok" (VStr "sink down")))).
  reflexivity.
Defined.

Lemma run_telemetry_call_counts_witness :
  (length (errorCalls (fst (run_once (Some NoopTelemetry) plan_fail_first))) = 1 /\
   length (infoCalls (fst (run_once (Some NoopTelemetry) plan_fail_first))) = 1) /\
  (length (errorCalls (fst (run_once (Some NoopTelemetry) (plan_throw unprintable)))) = 0 /\
   length (infoCalls (fst (run_once (Some NoopTelemetry) (plan_throw unprintable)))) = 1).
Proof.
  assert (Hq : quiet (Some NoopTelemetry)) by (split; reflexivity).
  split.
  - exact (proj1 (run_telemetry_call_counts plan_fail_first NoopTelemetry Hq)
             (Err (VObject [("message", VStr "Step failed: a"); ("cause", VError "x")]))
             eq_refl).
  - exact (proj2 (run_telemetry_call_counts (plan_throw unprintable) NoopTelemetry Hq)
             cannot_convert eq_refl).
Defined.

Lemma run_closing_event_reports_outcome_witness :
  fst (run_once (Some NoopTelemetry) plan_skip_middle) =
    [EvInfo "orchestrator.run.start" [("planId", VStr "p"); ("name", VStr "p")];
     EvAction 0; EvWhen 1; EvAction 2;
     EvInfo "orchestrator.run.ok" [("steps", js_number 3)]] /\
  fst (run_once (Some NoopTelemetry) (plan_throw (VError "kaboom"))) =
    [EvInfo "orchestrator.run.start" [("planId", VStr "p"); ("name", VStr "p")];
     EvAction 0;
     EvError "orchestrator.run.exception" [("error", VStr "kaboom")]].
Proof.
  assert (Hq : quiet (Some NoopTelemetry)) by (split; reflexivity).
  split.
  - exact (proj1 (run_closing_event_reports_outcome plan_skip_middle NoopTelemetry Hq)
             _ eq_refl).
  - exact (proj1 (proj2 (proj2 (run_closing_event_reports_outcome
                                  (plan_throw (VError "kaboom")) NoopTelemetry Hq)))
             (VError "kaboom") (VStr "kaboom") eq_refl eq_refl).
Defined.

Lemma makePlan_id_collision_witness :
  ~ NoDup (map step_id (plan_steps (makePlan "p" specs_colliding))).
Proof.
  apply (makePlan_id_collision "p" specs_colliding 1 0
           (spec "b" act_ok) (spec_with_id (IdString "p-s2") "a" act_ok)).
  - discriminate.
  - reflexivity.
  - left. reflexivity.
  - reflexivity.
  - reflexivity.
Defined.

Lemma makePlan_then_runPlan_ids_witness :
  NoDup (map entry_id (ls_summary (fst (runPlan plan_two_ok)))) /\
  (forall v, snd (runPlan plan_two_ok) = Normal (Ok v) ->
     map entry_id (steps v) = ["p-s1"; "p-s2"]).
Proof.
  apply (makePlan_then_runPlan_ids "p" [spec "a" act_ok; spec "b" act_ok]).
  repeat constructor.
Defined.

Lemma run_closing_call_failure_replaces_result_witness :
  snd (run_once (Some (tel_info_throws_on "orchestrator.run.ok" (VStr "sink down")))
         plan_two_ok) = Normal (Err (VStr "sink down")) /\
  snd (run_once (Some (tel_info_throws_on "orchestrator.run.ok" unprintable))
         plan_two_ok) = Throw cannot_convert.
Proof.
  split.
  - apply (run_closing_call_failure_replaces_result plan_two_ok
             (tel_info_throws_on "orchestrator.run.ok" (VStr "sink down")) (VStr "sink down")).
    + reflexivity.
    + left. eexists. split; reflexivity.
  - apply (run_closing_call_failure_replaces_result plan_two_ok
             (tel_info_throws_on "orchestrator.run.ok" unprintable) unprintable).
    + reflexivity.
    + left. eexists. split; reflexivity.
Defined.

End FurtherWitnesses.
